(** * Registration and subnet commands of bittensor (v2)

    Shallow embedding of
      - [bittensor/v2/commands/network.py]: [allowed_value] and the
        commands of the subnets;
      - the registration orchestrator, which the integration tests drive
        through mocks;
      - [tests/neurotrace/generate_subtensor_tests.py]: the wrapping of
        the methods of a class.

    Python values are modelled as follows: [str] as [string] (the bytes
    of the text in UTF-8), [float] as an IEEE-754 binary64 value
    ([spec_float] with precision 53 and maximal exponent 1024), an
    f-string as the list of its literal and interpolated parts, an
    exception as the left summand of a sum. *)

From Stdlib Require Import ZArith List String Ascii Bool Lia.
From Stdlib Require Import Floats.SpecFloat.
Import ListNotations.

Local Open Scope string_scope.

(* ================================================================== *)
(** ** Python values used by [network.py] *)

Module Py.

(** Python's [float]: binary64. *)
Definition float : Type := spec_float.

Definition prec : Z := 53.
Definition emax : Z := 1024.

(** An integer literal compared with a float: Python compares the exact
    values; the literals of this file (0, 52428, 65535) are exactly
    representable, so the comparison is the one of binary64. *)
Definition float_of_int (z : Z) : float := binary_normalize prec emax z 0 false.

Definition nan : float := S754_nan.

(** [x < y], [x <= y], [x > y], [x >= y] on floats: all false on NaN. *)
Definition flt (x y : float) : bool := SFltb x y.
Definition fle (x y : float) : bool := SFleb x y.
Definition fgt (x y : float) : bool := SFltb y x.
Definition fge (x y : float) : bool := SFleb y x.

Definition is_nan (x : float) : bool :=
  match x with S754_nan => true | _ => false end.

(** The exceptions that the modelled code can raise. *)
Inductive exn : Type :=
| ValueError
| AttributeError.

(** [Union[str, bool, float]], and [None], which [cli.config.value] is
    when [--value] is not given and no prompt is shown. *)
Inductive value : Type :=
| VBool (b : bool)
| VStr (s : string)
| VFloat (f : float)
| VNone.

(** A formatted string literal before rendering: literal text and
    interpolated floats, in order. *)
Inductive fpart : Type :=
| Lit (s : string)
| Interp (f : float).

Definition fstring : Type := list fpart.

(** [str.split(",")]: never empty, one more part than commas. *)
Fixpoint split_comma (s : string) : list string :=
  match s with
  | EmptyString => [EmptyString]
  | String c r =>
      if Ascii.eqb c "," then EmptyString :: split_comma r
      else match split_comma r with
           | h :: t => String c h :: t
           | [] => [String c EmptyString]
           end
  end.

(** [str.lower()] on ASCII text. *)
Definition lower_ascii (c : ascii) : ascii :=
  let n := N_of_ascii c in
  if ((65 <=? n) && (n <=? 90))%N then ascii_of_N (n + 32) else c.

Fixpoint lower (s : string) : string :=
  match s with
  | EmptyString => EmptyString
  | String c r => String (lower_ascii c) (lower r)
  end.

(** A reference instance of the builtin [float(str)] on plain decimal
    text: surrounding blanks, an optional sign, then [nan], [inf],
    [infinity] (any case) or digits with at most one point.  Exponents and
    digit separators are not covered; the theorems below are stated for an
    arbitrary parser and use this one only on concrete inputs. *)
Definition is_blank (c : ascii) : bool :=
  let n := N_of_ascii c in ((n =? 32) || ((9 <=? n) && (n <=? 13)))%N.

Fixpoint lstrip (s : string) : string :=
  match s with
  | String c r => if is_blank c then lstrip r else s
  | EmptyString => EmptyString
  end.

Fixpoint rstrip (s : string) : string :=
  match s with
  | EmptyString => EmptyString
  | String c r =>
      match rstrip r with
      | EmptyString => if is_blank c then EmptyString else String c EmptyString
      | r' => String c r'
      end
  end.

Definition digit_of (c : ascii) : option Z :=
  let n := N_of_ascii c in
  if ((48 <=? n) && (n <=? 57))%N then Some (Z.of_N n - 48)%Z else None.

(** Reads [digits[.digits]]: mantissa, number of fractional digits, number
    of digits read; [None] on any other character or a second point. *)
Fixpoint read_decimal (s : string) (seen_point : bool) (m : Z) (frac : Z) (nd : nat)
  : option (Z * Z * nat) :=
  match s with
  | EmptyString => Some (m, frac, nd)
  | String c r =>
      if Ascii.eqb c "." then
        if seen_point then None else read_decimal r true m frac nd
      else
        match digit_of c with
        | Some d =>
            read_decimal r seen_point (10 * m + d)%Z
                         (if seen_point then frac + 1 else frac)%Z (S nd)
        | None => None
        end
  end.

Definition float_of_decimal (neg : bool) (m frac : Z) : float :=
  match m with
  | Zpos p =>
      match (10 ^ frac)%Z with
      | Zpos q => SFdiv prec emax (S754_finite neg p 0) (S754_finite false q 0)
      | _ => S754_nan
      end
  | _ => S754_zero neg
  end.

Definition float_of_string (s : string) : option float :=
  let t := rstrip (lstrip s) in
  let '(neg, u) :=
    match t with
    | String "-" r => (true, r)
    | String "+" r => (false, r)
    | _ => (false, t)
    end in
  let l := lower u in
  if String.eqb l "nan" then Some S754_nan
  else if String.eqb l "inf" || String.eqb l "infinity" then Some (S754_infinity neg)
  else match read_decimal u false 0 0 0 with
       | Some (m, frac, S _) => Some (float_of_decimal neg m frac)
       | _ => None
       end.

End Py.

(* ================================================================== *)
(** ** [bittensor/v2/commands/network.py] *)

Module Network.
Import Py.

(** What [allowed_value] returns next to the boolean: the value itself,
    the list [[alpha_low, alpha_high]], or the text that ends the error
    message. *)
Inductive payload : Type :=
| PValue (v : value)
| PList (l : list float)
| PMsg (m : fstring).

Definition msg_alpha_high (alpha_high : float) : fstring :=
  [Lit "between 52428 and 65535 for alpha_high (but is "; Interp alpha_high; Lit ")"].

Definition msg_alpha_low (alpha_low : float) : fstring :=
  [Lit "between 0 and 52428 for alpha_low (but is "; Interp alpha_low; Lit ")"].

Definition msg_number_or_boolean : fstring := [Lit "a number or a boolean"].

Section AllowedValue.

(** The builtin [float(...)] applied to a [str]: [None] stands for
    [ValueError]. *)
Variable py_float : string -> option float.

(** The body of the [try] block; [inr None] means that the block ends
    without returning. *)
Definition allowed_value_try (param : string) (v : value)
  : exn + option (bool * payload) :=
  match v with
  | VBool _ => inr None
  | _ =>
      if String.eqb param "alpha_values" then
        match v with
        | VStr s =>
            match split_comma s with
            | [alpha_low_str; alpha_high_str] =>
                match py_float alpha_high_str with
                | None => inl ValueError
                | Some alpha_high =>
                    match py_float alpha_low_str with
                    | None => inl ValueError
                    | Some alpha_low =>
                        if fle alpha_high (float_of_int 52428)
                           || fge alpha_high (float_of_int 65535)
                        then inr (Some (false, PMsg (msg_alpha_high alpha_high)))
                        else if flt alpha_low (float_of_int 0)
                                || fgt alpha_low (float_of_int 52428)
                        then inr (Some (false, PMsg (msg_alpha_low alpha_low)))
                        else inr (Some (true, PList [alpha_low; alpha_high]))
                    end
                end
            | _ => inl ValueError
            end
        | _ => inl AttributeError
        end
      else inr None
  end.

Definition allowed_value (param : string) (v : value) : exn + (bool * payload) :=
  match allowed_value_try param v with
  | inl ValueError => inr (false, PMsg msg_number_or_boolean)
  | inl e => inl e
  | inr (Some r) => inr r
  | inr None => inr (true, PValue v)
  end.

(** [SubnetSudoCommand._run] from the coercion of [cli.config.value] on:
    the parameters whose value is turned into a boolean. *)
Definition is_boolean_param (param : string) : bool :=
  String.eqb param "network_registration_allowed"
  || String.eqb param "network_pow_registration_allowed"
  || String.eqb param "commit_reveal_weights_enabled"
  || String.eqb param "liquid_alpha_enabled".

Definition coerce_value (param config_value : string) : value :=
  if is_boolean_param param
  then VBool (String.eqb (lower config_value) "true" || String.eqb config_value "1")
  else VStr config_value.

(** The result is the [value] handed to [subtensor.set_hyperparameter],
    or the exception raised before the call. *)
Definition SubnetSudoCommand_run (param config_value : string) : exn + payload :=
  let v := coerce_value param config_value in
  match allowed_value param v with
  | inl e => inl e
  | inr (false, _) => inl ValueError
  | inr (true, p) => inr p
  end.

End AllowedValue.

(** *** Notions used to state the properties of [allowed_value] *)

Definition c52428 : float := float_of_int 52428.
Definition c65535 : float := float_of_int 65535.
Definition c0 : float := float_of_int 0.

(** The bounds as the claim words them, with Python's chained
    comparisons. *)
Definition alpha_high_in_bounds (alpha_high : float) : bool :=
  flt c52428 alpha_high && flt alpha_high c65535.

Definition alpha_low_in_bounds (alpha_low : float) : bool :=
  fle c0 alpha_low && fle alpha_low c52428.

(** The value is a string of exactly two comma-separated parts that both
    parse as floats. *)
Definition two_floats (py_float : string -> option float) (s : string) : bool :=
  match split_comma s with
  | [lo; hi] =>
      match py_float lo, py_float hi with
      | Some _, Some _ => true
      | _, _ => false
      end
  | _ => false
  end.

Definition boolean_params : list string :=
  ["network_registration_allowed"; "network_pow_registration_allowed";
   "commit_reveal_weights_enabled"; "liquid_alpha_enabled"].

End Network.


(* ================================================================== *)
(** ** The registration orchestrator

    The integration tests call [subtensor.register] with the ledger calls
    ([is_hotkey_registered], [get_current_block], [do_pow_register]) and the
    solver ([create_pow], the result queue) replaced by scripted mocks.  The
    orchestrator is modelled the same way: a step function over the states of
    its state machine, run against a world that answers the k-th call of each
    kind, and recording every call in a trace as the mocks do. *)

Module Registration.
Local Open Scope list_scope.

Definition bytes : Type := list Byte.byte.

(** Modelled from the spec: POWSolution of the data model (section 3); the
    solver that builds it is not among the sources. *)
Record POWSolution : Type := {
  nonce : N;
  block_number : Z;
  block_hash : bytes;
  difficulty : N;
  proof_hash : bytes
}.

(** Modelled from the spec: what Solving fetches from the Ledger before a
    search starts (4.2, 4.3). *)
Record Block : Type := {
  blk_number : Z;
  blk_hash : bytes;
  blk_difficulty : N
}.

(** Modelled from the spec: the reason of a rejected submission (4.3,
    Submitting), which says that the address became registered concurrently,
    or anything else (["Failed"] in the tests). *)
Inductive reason : Type :=
| HotKeyAlreadyRegistered
| Rejected (msg : string).

(** Modelled from the spec: the Ledger collaborator (section 6) and the
    solution collector (4.2), as the tests script them: each function
    answers the k-th call of its kind (a mock's [side_effect] list). *)
Record World : Type := {
  is_hotkey_registered : nat -> bool;
  get_current_block : nat -> Z;
  get_block_hash : Z -> bytes;
  get_difficulty : nat -> N;
  (** what the result channel delivers within [update_interval] for the
      k-th search: a nonce with its proof hash, or nothing (timeout) *)
  await_solution : nat -> Block -> option (N * bytes);
  submit_pow_register : nat -> POWSolution -> bool * option reason
}.

(** Modelled from the spec: RegistrationAttempt (section 3) without its
    counter, which lives in the state, and with the staleness threshold,
    which the spec leaves configurable. *)
Record Config : Type := {
  netuid : N;
  max_attempts : nat;
  update_interval : nat;
  staleness_threshold : Z
}.

(** Modelled from the spec: the states of the orchestrator (4.3);
    [Verifying] and [Submitting] hold the solution at hand. *)
Inductive phase : Type :=
| Idle
| CheckRegistered
| Solving
| Verifying (s : POWSolution)
| Submitting (s : POWSolution)
| RetrySolving
| Success
| Failure.

(** One entry per call to a collaborator, in the order of the calls, as a
    mock records them. *)
Inductive event : Type :=
| EPoll (registered : bool)
| EFetch (b : Block)
| ESolve (r : option POWSolution)
| EVerify (s : POWSolution) (height : Z) (stale : bool)
| ESubmit (s : POWSolution) (r : bool * option reason).

Record state : Type := {
  ph : phase;
  attempts_made : nat;
  trace : list event
}.

Definition init : state := {| ph := Idle; attempts_made := 0; trace := [] |}.

(** *** What a trace shows *)

Definition poll_results (tr : list event) : list bool :=
  flat_map (fun e => match e with EPoll b => [b] | _ => [] end) tr.

Definition height_queries (tr : list event) : list Z :=
  flat_map (fun e => match e with
                     | EFetch b => [blk_number b]
                     | EVerify _ h _ => [h]
                     | _ => []
                     end) tr.

Definition solve_results (tr : list event) : list (option POWSolution) :=
  flat_map (fun e => match e with ESolve r => [r] | _ => [] end) tr.

Definition timeouts (tr : list event) : list event :=
  filter (fun e => match e with ESolve None => true | _ => false end) tr.

Definition verifications (tr : list event) : list (POWSolution * bool) :=
  flat_map (fun e => match e with EVerify s _ stale => [(s, stale)] | _ => [] end) tr.

Definition submissions (tr : list event) : list (POWSolution * (bool * option reason)) :=
  flat_map (fun e => match e with ESubmit s r => [(s, r)] | _ => [] end) tr.

(** The solutions that passed verification, in order. *)
Definition fresh_solutions (tr : list event) : list POWSolution :=
  flat_map (fun e => match e with EVerify s _ false => [s] | _ => [] end) tr.

Definition is_terminal (p : phase) : bool :=
  match p with Success | Failure => true | _ => false end.

(** RegistrationResult.success, once the run has ended. *)
Definition result (st : state) : option bool :=
  match ph st with
  | Success => Some true
  | Failure => Some false
  | _ => None
  end.

Section Orchestrator.

Variable cfg : Config.
Variable w : World.

(** Modelled from the spec: the staleness test of 4.3 (Verifying), which
    lives in the absent solver module.  A solution is stale when the chain
    height has advanced beyond the staleness threshold relative to the
    solution's block number. *)
Definition is_stale (s : POWSolution) (height : Z) : bool :=
  (staleness_threshold cfg <? height - block_number s)%Z.

(** Modelled from the spec: the test [attempts_made >= max_attempts] of
    4.3. *)
Definition exhausted (attempts : nat) : bool :=
  (max_attempts cfg <=? attempts)%nat.

(** Modelled from the spec: the start of Solving (4.3), which fetches the
    current block number, its hash and the difficulty from the Ledger; each
    call is the next one of its kind. *)
Definition fetch_block (tr : list event) : Block :=
  let n := get_current_block w (List.length (height_queries tr)) in
  {| blk_number := n;
     blk_hash := get_block_hash w n;
     blk_difficulty := get_difficulty w (List.length (solve_results tr)) |}.

(** Modelled from the spec: the POWSolution that a worker publishes for
    the block its search was started from (4.2). *)
Definition solution_of (b : Block) (found : N * bytes) : POWSolution :=
  {| nonce := fst found;
     block_number := blk_number b;
     block_hash := blk_hash b;
     difficulty := blk_difficulty b;
     proof_hash := snd found |}.

(** Modelled from the spec: the RegistrationOrchestrator state machine
    (component design 4.3), whose implementation
    ([bittensor/v2/extrinsics/registration.py]) is not among the sources.
      - CheckRegistered: a registered hotkey goes directly to Success.
      - Solving: fetch the current block, await the collector; on a
        solution go to Verifying; on timeout the retry cycle is counted
        (the attempt record is mutated each retry cycle, and
        [test_registration_failed], where no search delivers, expects the
        run to give up after three searches), then Failure if the attempts
        are used up, else back through CheckRegistered.
      - Verifying: re-query the height; a stale solution is discarded and
        solving restarts with a freshly fetched block, otherwise
        Submitting.
      - Submitting: [(true, _)] is Success; [(false, reason)] increments
        the attempts, is Success when the reason says that the address
        became registered, else RetrySolving unless the attempts are
        used up, then Failure.
      - Success and Failure are terminal: no further side effects.
    Ledger calls are taken to answer (no NetworkError). *)
Definition step (st : state) : state :=
  let tr := trace st in
  match ph st with
  | Idle =>
      {| ph := CheckRegistered; attempts_made := attempts_made st; trace := tr |}
  | CheckRegistered =>
      let b := is_hotkey_registered w (List.length (poll_results tr)) in
      {| ph := if b then Success else Solving;
         attempts_made := attempts_made st;
         trace := tr ++ [EPoll b] |}
  | Solving =>
      let blk := fetch_block tr in
      match await_solution w (List.length (solve_results tr)) blk with
      | Some found =>
          let s := solution_of blk found in
          {| ph := Verifying s;
             attempts_made := attempts_made st;
             trace := tr ++ [EFetch blk; ESolve (Some s)] |}
      | None =>
          let a := S (attempts_made st) in
          {| ph := if exhausted a then Failure else CheckRegistered;
             attempts_made := a;
             trace := tr ++ [EFetch blk; ESolve None] |}
      end
  | Verifying s =>
      let h := get_current_block w (List.length (height_queries tr)) in
      let stale := is_stale s h in
      {| ph := if stale then Solving else Submitting s;
         attempts_made := attempts_made st;
         trace := tr ++ [EVerify s h stale] |}
  | Submitting s =>
      let r := submit_pow_register w (List.length (submissions tr)) s in
      match r with
      | (true, _) =>
          {| ph := Success;
             attempts_made := attempts_made st;
             trace := tr ++ [ESubmit s r] |}
      | (false, why) =>
          let a := S (attempts_made st) in
          {| ph := match why with
                   | Some HotKeyAlreadyRegistered => Success
                   | _ => if exhausted a then Failure else RetrySolving
                   end;
             attempts_made := a;
             trace := tr ++ [ESubmit s r] |}
      end
  | RetrySolving =>
      {| ph := Solving; attempts_made := attempts_made st; trace := tr |}
  | Success | Failure => st
  end.

(** [n] steps from a given state, and the run from [Idle]. *)
Fixpoint steps (n : nat) (st : state) : state :=
  match n with
  | O => st
  | S k => steps k (step st)
  end.

Definition run (fuel : nat) : state := steps fuel init.

End Orchestrator.

(** *** Notions used to state the properties of a run *)

(** The events after which the run is over with a registered hotkey: a
    poll that says so, an accepted submission, a submission rejected
    because the hotkey is registered already. *)
Definition closing (e : event) : bool :=
  match e with
  | EPoll true => true
  | ESubmit _ (true, _) => true
  | ESubmit _ (false, Some HotKeyAlreadyRegistered) => true
  | _ => false
  end.

Definition failed_submission (x : POWSolution * (bool * option reason)) : bool :=
  negb (fst (snd x)).

(** The solution that has passed verification and is not submitted yet. *)
Definition pending (p : phase) : list POWSolution :=
  match p with Submitting s => [s] | _ => [] end.

(** A closing event ends the run in [Success] and is the last event;
    [Success] is reached in no other way. *)
Definition closed_by_last (st : state) : Prop :=
  match ph st with
  | Success =>
      exists pre e, trace st = pre ++ [e] /\ closing e = true
                    /\ existsb closing pre = false
  | _ => existsb closing (trace st) = false
  end.

(** Every solution that passed verification is submitted, in order, and
    nothing else is; the last one may still wait in [Submitting]. *)
Definition submits_fresh (st : state) : Prop :=
  (map fst (submissions (trace st)) ++ pending (ph st))%list = fresh_solutions (trace st).

(** The attempts made are the timed-out searches plus the rejected
    submissions. *)
Definition attempts_counted (st : state) : Prop :=
  attempts_made st
  = List.length (timeouts (trace st))
    + List.length (filter failed_submission (submissions (trace st))).

(** With at least one attempt allowed: the run goes on only while
    attempts are left, fails with exactly the allowed number of attempts
    made, and never submits more often than that number. *)
Definition attempts_bounded (cfg : Config) (st : state) : Prop :=
  match ph st with
  | Success => List.length (submissions (trace st)) <= max_attempts cfg
  | Failure =>
      attempts_made st = max_attempts cfg
      /\ List.length (submissions (trace st)) <= attempts_made st
  | _ =>
      attempts_made st < max_attempts cfg
      /\ List.length (submissions (trace st)) <= attempts_made st
  end.

(** Every search has timed out or delivered a solution, which has been
    verified unless the machine is about to do so. *)
Definition searches_accounted (st : state) : Prop :=
  List.length (solve_results (trace st))
  = List.length (timeouts (trace st)) + List.length (verifications (trace st))
    + match ph st with Verifying _ => 1 | _ => 0 end.

(** The hotkey is never found registered. *)
Definition never_registered (w : World) : Prop :=
  forall k, is_hotkey_registered w k = false.

(** Between two consecutive height queries the chain does not advance
    beyond the staleness threshold. *)
Definition never_stale (cfg : Config) (w : World) : Prop :=
  forall k,
    (get_current_block w (S k) - get_current_block w k <= staleness_threshold cfg)%Z.

Definition always_rejected (w : World) : Prop :=
  forall k s, exists why,
    submit_pow_register w k s = (false, why) /\ why <> Some HotKeyAlreadyRegistered.

(** Worlds in which every search finds a solution, and worlds in which
    none does. *)
Definition always_solves (w : World) : Prop :=
  forall k b, await_solution w k b <> None.

Definition never_solves (w : World) : Prop :=
  forall k b, await_solution w k b = None.

(** From some height query on, the chain no longer advances beyond the
    staleness threshold between two consecutive queries: only finitely
    many solutions can go stale. *)
Definition eventually_fresh (cfg : Config) (w : World) : Prop :=
  exists K, forall k, K <= k ->
    (get_current_block w (S k) - get_current_block w k <= staleness_threshold cfg)%Z.

(** Every attempt fails: the hotkey is never found registered, and either
    no solution is produced, or every submission is rejected and the
    solutions stop going stale. *)
Definition every_attempt_fails (cfg : Config) (w : World) : Prop :=
  never_registered w
  /\ (never_solves w \/ (eventually_fresh cfg w /\ always_rejected w)).

(** The trace holds the answers of the Ledger: the k-th submission
    recorded is answered as the world answers the k-th call. *)
Definition answers_recorded (w : World) (st : state) : Prop :=
  forall k x, nth_error (submissions (trace st)) k = Some x ->
              snd x = submit_pow_register w k (fst x).

Definition failed : bool * option reason := (false, Some (Rejected "Failed")).
Definition accepted : bool * option reason := (true, None).

(** The submissions answered [(False, "Failed")], [(False, "Failed")],
    [(True, None)], whatever the solution. *)
Definition fails_twice_then_accepts (w : World) : Prop :=
  forall s,
    submit_pow_register w 0 s = failed
    /\ submit_pow_register w 1 s = failed
    /\ submit_pow_register w 2 s = accepted.

(** *** The scenarios of the integration tests *)

Definition cfg_of (max : nat) : Config :=
  {| netuid := 3; max_attempts := max; update_interval := 5; staleness_threshold := 3 |}.

Definition found_at (k : nat) : N * bytes := (N.of_nat k, []).

(** Never registered, every submission answered [(False, "Failed")] as in
    [test_registration_failed]; the search finds a solution every other
    time, so that both kinds of failed attempt occur. *)
Definition world_failing : World :=
  {| is_hotkey_registered := fun _ => false;
     get_current_block := fun k => Z.of_nat k;
     get_block_hash := fun _ => [];
     get_difficulty := fun _ => 1%N;
     await_solution := fun k _ => if Nat.even k then Some (found_at k) else None;
     submit_pow_register := fun _ _ => failed |}.

(** [test_registration_failed] itself: never registered and no search ever
    delivers a solution. *)
Definition world_no_solution : World :=
  {| is_hotkey_registered := fun _ => false;
     get_current_block := fun k => Z.of_nat k;
     get_block_hash := fun _ => [];
     get_difficulty := fun _ => 1%N;
     await_solution := fun _ _ => None;
     submit_pow_register := fun _ _ => failed |}.

(** Every search finds a solution, the first submission is accepted. *)
Definition world_accepting : World :=
  {| is_hotkey_registered := fun _ => false;
     get_current_block := fun k => Z.of_nat k;
     get_block_hash := fun _ => [];
     get_difficulty := fun _ => 1%N;
     await_solution := fun k _ => Some (found_at k);
     submit_pow_register := fun _ _ => accepted |}.

(** [test_registration_stale_then_continue]: the chain jumps from height 0
    to height 10 after the first block is fetched, then stands still. *)
Definition world_stale_once : World :=
  {| is_hotkey_registered := fun _ => false;
     get_current_block := fun k => match k with O => 0%Z | _ => 10%Z end;
     get_block_hash := fun _ => [];
     get_difficulty := fun _ => 1%N;
     await_solution := fun k _ => Some (found_at k);
     submit_pow_register := fun _ _ => accepted |}.

(** As [world_stale_once], but every submission is answered
    [(False, "Failed")]. *)
Definition world_stale_then_failing : World :=
  {| is_hotkey_registered := fun _ => false;
     get_current_block := fun k => match k with O => 0%Z | _ => 10%Z end;
     get_block_hash := fun _ => [];
     get_difficulty := fun _ => 1%N;
     await_solution := fun k _ => Some (found_at k);
     submit_pow_register := fun _ _ => failed |}.

(** The chain advances by ten blocks between any two height queries, so
    that every solution is stale when it is verified; submissions would be
    answered [(False, "Failed")]. *)
Definition world_always_stale : World :=
  {| is_hotkey_registered := fun _ => false;
     get_current_block := fun k => (10 * Z.of_nat k)%Z;
     get_block_hash := fun _ => [];
     get_difficulty := fun _ => 1%N;
     await_solution := fun k _ => Some (found_at k);
     submit_pow_register := fun _ _ => failed |}.

(** The hotkey is registered already. *)
Definition world_registered : World :=
  {| is_hotkey_registered := fun _ => true;
     get_current_block := fun k => Z.of_nat k;
     get_block_hash := fun _ => [];
     get_difficulty := fun _ => 1%N;
     await_solution := fun _ _ => None;
     submit_pow_register := fun _ _ => accepted |}.

(** [test_registration_partly_failed]: the submissions are answered
    [(False, "Failed")] twice, then [(True, None)]. *)
Definition world_partly_failing : World :=
  {| is_hotkey_registered := fun _ => false;
     get_current_block := fun k => Z.of_nat k;
     get_block_hash := fun _ => [];
     get_difficulty := fun _ => 1%N;
     await_solution := fun k _ => Some (found_at k);
     submit_pow_register := fun k _ => if (k <? 2)%nat then failed else accepted |}.

(** The polls answer [False], [False], [True]; no solution is ever found. *)
Definition world_registered_at_third_poll : World :=
  {| is_hotkey_registered := fun k => Nat.eqb k 2;
     get_current_block := fun k => Z.of_nat k;
     get_block_hash := fun _ => [];
     get_difficulty := fun _ => 1%N;
     await_solution := fun _ _ => None;
     submit_pow_register := fun _ _ => accepted |}.

(** The polls answer [False], [False], [True]; every other search finds
    a solution, which is rejected. *)
Definition world_busy : World :=
  {| is_hotkey_registered := fun k => Nat.eqb k 2;
     get_current_block := fun k => Z.of_nat k;
     get_block_hash := fun _ => [];
     get_difficulty := fun _ => 1%N;
     await_solution := fun k _ => if Nat.even k then Some (found_at k) else None;
     submit_pow_register := fun _ _ => failed |}.

End Registration.

(* ================================================================== *)
(** ** [network.py]: the commands *)

Module NetworkCommands.
Import Py Network.
Local Open Scope list_scope.

(** *** Text *)

Definition comma : string := ",".

Fixpoint count_commas (s : string) : nat :=
  match s with
  | EmptyString => 0
  | String c r => (if Ascii.eqb c "," then 1 else 0) + count_commas r
  end.

(** [",".join(parts)] *)
Fixpoint join_comma (parts : list string) : string :=
  match parts with
  | [] => EmptyString
  | [x] => x
  | x :: r => (x ++ comma ++ join_comma r)%string
  end.

(** *** [HYPERPARAMS] *)

(** The dict literal, in source order: hyperparameter name and the name of
    its extrinsic. *)
Definition HYPERPARAMS : list (string * string) :=
  [ ("serving_rate_limit", "sudo_set_serving_rate_limit");
    ("min_difficulty", "sudo_set_min_difficulty");
    ("max_difficulty", "sudo_set_max_difficulty");
    ("weights_version", "sudo_set_weights_version_key");
    ("weights_rate_limit", "sudo_set_weights_set_rate_limit");
    ("max_weight_limit", "sudo_set_max_weight_limit");
    ("immunity_period", "sudo_set_immunity_period");
    ("min_allowed_weights", "sudo_set_min_allowed_weights");
    ("activity_cutoff", "sudo_set_activity_cutoff");
    ("network_registration_allowed", "sudo_set_network_registration_allowed");
    ("network_pow_registration_allowed", "sudo_set_network_pow_registration_allowed");
    ("min_burn", "sudo_set_min_burn");
    ("max_burn", "sudo_set_max_burn");
    ("adjustment_alpha", "sudo_set_adjustment_alpha");
    ("rho", "sudo_set_rho");
    ("kappa", "sudo_set_kappa");
    ("difficulty", "sudo_set_difficulty");
    ("bonds_moving_avg", "sudo_set_bonds_moving_average");
    ("commit_reveal_weights_interval", "sudo_set_commit_reveal_weights_interval");
    ("commit_reveal_weights_enabled", "sudo_set_commit_reveal_weights_enabled") ].

(** The choices that [Prompt.ask(..., choices=HYPERPARAMS)] offers: the keys
    of the dict. *)
Definition hyperparam_choices : list string := map fst HYPERPARAMS.

(** *** [SubnetSudoCommand._run], from the prompts on *)

(** What [_run] reads from [cli.config]: [param] and [value] are [None]
    when the argument was not given ([add_args] declares them with
    [type=str] and no default); [is_set] is the config's own record of
    what the user has set. *)
Record SudoConfig : Type := {
  config_netuid : Z;
  config_param : option string;
  config_value : option string;
  param_is_set : bool;
  value_is_set : bool;
  no_prompt : bool
}.

(** The call [subtensor.set_hyperparameter(wallet, netuid=..., parameter=...,
    value=..., prompt=...)]; [None] is Python's [None]. *)
Record SetHyperparameter : Type := {
  call_netuid : Z;
  call_parameter : option string;
  call_value : option payload;
  call_prompt : bool
}.

Section SudoRun.

Variable py_float : string -> option float.

(** The answers typed at the two prompts, used when a prompt is shown. *)
Variable ask_param : string.
Variable ask_value : string.

(** [cli.config.param] and [cli.config.value] after the two prompts. *)
Definition prompted_param (c : SudoConfig) : option string :=
  if negb (param_is_set c) && negb (no_prompt c) then Some ask_param else config_param c.

Definition prompted_value (c : SudoConfig) : option string :=
  if negb (value_is_set c) && negb (no_prompt c) then Some ask_value else config_value c.

(** The coercion, [allowed_value] and the call.  With both a parameter and
    a value this is [SubnetSudoCommand_run].  A value [None] has no
    [lower], which the coercion of a boolean parameter calls:
    [AttributeError]; for the other parameters [None] goes to
    [allowed_value] as it is.  A parameter [None] equals none of the names
    compared with it. *)
Definition SubnetSudoCommand_run_config (c : SudoConfig) : exn + SetHyperparameter :=
  let call p v :=
    {| call_netuid := config_netuid c; call_parameter := p; call_value := v;
       call_prompt := negb (no_prompt c) |} in
  match prompted_param c, prompted_value c with
  | Some p, Some v =>
      match SubnetSudoCommand_run py_float p v with
      | inl e => inl e
      | inr pl => inr (call (Some p) (Some pl))
      end
  | Some p, None =>
      if is_boolean_param p then inl AttributeError
      else
        match allowed_value py_float p VNone with
        | inl e => inl e
        | inr (false, _) => inl ValueError
        | inr (true, _) => inr (call (Some p) None)
        end
  | None, Some v => inr (call None (Some (PValue (VStr v))))
  | None, None => inr (call None None)
  end.

End SudoRun.

(** Two configurations of [SubnetSudoCommand._run]: no value given and no
    prompt allowed; nothing given and both prompts shown. *)
Definition config_no_value : SudoConfig :=
  {| config_netuid := 1; config_param := Some "liquid_alpha_enabled";
     config_value := None; param_is_set := true; value_is_set := false;
     no_prompt := true |}.

Definition config_prompted : SudoConfig :=
  {| config_netuid := 1; config_param := None; config_value := None;
     param_is_set := false; value_is_set := false; no_prompt := false |}.

(** *** Calls to the collaborators, exceptions, [try] ... [finally] *)

(** An exception raised by a collaborator: its class, its text, and
    whether the class derives from [Exception] (what [except Exception]
    catches). *)
Record exc : Type := {
  exc_class : string;
  exc_text : string;
  derives_Exception : bool
}.

Definition TypeError (text : string) : exc :=
  {| exc_class := "TypeError"; exc_text := text; derives_Exception := true |}.

(** The table handed to the console: title, columns (header and footer;
    [add_column] has the footer as its second positional argument and the
    empty text as its default) and rows.  Styles, widths and justification
    are left out. *)
Record Column : Type := { header : string; footer : string }.

Record Table : Type := {
  title : string;
  columns : list Column;
  rows : list (list string)
}.

Definition add_column (h f : string) (t : Table) : Table :=
  {| title := title t; columns := columns t ++ [{| header := h; footer := f |}];
     rows := rows t |}.

Definition add_row (cells : list string) (t : Table) : Table :=
  {| title := title t; columns := columns t; rows := rows t ++ [cells] |}.

(** What a command does to the outside, in order. *)
Inductive event : Type :=
| ConfigCopy
| SubtensorOpen
| SubtensorClose
| LogDebug (msg : string)
| WalletOpen
| RegisterSubnetwork (prompt : bool)
| AskSetIdentity
| IdentityCheckConfig
| IdentityRun
| GetSubnetBurnCost
| ConsolePrint (text : string)
| GetAllSubnetsInfo
| GetDelegatesDetails
| PrintTable (t : Table)
| StdoutPrint (text : string)
| GetSubnetHyperparameters
| AskParam
| AskValue
| SetHyperparameterCall (c : SetHyperparameter).

(** A computation: the events so far, and the value returned or the
    exception raised. *)
Definition M (A : Type) : Type := list event * (exc + A).

Definition ret {A : Type} (a : A) : M A := ([], inr a).

Definition bind {A B : Type} (m : M A) (k : A -> M B) : M B :=
  match m with
  | (t, inl e) => (t, inl e)
  | (t, inr a) => let '(t', r) := k a in (t ++ t', r)
  end.

(** A call that is recorded and answers [r]. *)
Definition call {A : Type} (ev : event) (r : exc + A) : M A := ([ev], r).

Definition emit (ev : event) : M unit := ([ev], inr tt).

(** [try: body finally: fin]: the finalizer always runs; an exception of
    the finalizer replaces the outcome of the body. *)
Definition try_finally {A : Type} (body : M A) (fin : M unit) : M A :=
  let '(t, r) := body in
  let '(t', r') := fin in
  (t ++ t', match r' with inl e => inl e | inr _ => r end).

(** [try: body except Exception as e: handler(e)] *)
Definition try_except_Exception {A : Type} (body : M A) (handler : exc -> M A) : M A :=
  match body with
  | (t, inl e) =>
      if derives_Exception e then let '(t', r) := handler e in (t ++ t', r)
      else (t, inl e)
  | (t, inr a) => (t, inr a)
  end.

Notation "x <- m ;; k" := (bind m (fun x => k))
  (at level 61, m at next level, right associativity).
Notation "m ;;; k" := (bind m (fun _ => k))
  (at level 61, right associativity).

Definition succeeded {A : Type} (m : M A) : bool :=
  match snd m with inr _ => true | inl _ => false end.

(** The [finally] block of every [run]: [if "subtensor" in locals()], that
    is, when the constructor has returned, close the connection and log. *)
Definition close_if_opened (opened : bool) (close : exc + unit) : M unit :=
  if opened
  then call SubtensorClose close ;;; emit (LogDebug "closing subtensor connection")
  else ret tt.

Definition count_event (p : event -> bool) (t : list event) : nat :=
  List.length (filter p t).

Definition is_close (ev : event) : bool :=
  match ev with SubtensorClose => true | _ => false end.

Definition is_print (ev : event) : bool :=
  match ev with ConsolePrint _ => true | _ => false end.

(** *** [RegisterSubnetworkCommand] *)

(** The answers of the collaborators to one invocation. *)
Record RegisterWorld : Type := {
  rw_no_prompt : bool;
  rw_copy : exc + unit;
  rw_open : exc + unit;
  rw_wallet : exc + unit;
  rw_register : exc + bool;
  rw_answer : exc + string;
  rw_close_in_run : exc + unit;
  rw_copy_in_run : exc + unit;
  rw_check_config : exc + unit;
  rw_identity_run : exc + unit;
  rw_close : exc + unit
}.

Definition RegisterSubnetworkCommand__run (w : RegisterWorld) : M unit :=
  call WalletOpen (rw_wallet w) ;;;
  success <- call (RegisterSubnetwork (negb (rw_no_prompt w))) (rw_register w) ;;
  if success && negb (rw_no_prompt w) then
    do_set_identity <- call AskSetIdentity (rw_answer w) ;;
    if String.eqb (lower do_set_identity) "y" then
      call SubtensorClose (rw_close_in_run w) ;;;
      call ConfigCopy (rw_copy_in_run w) ;;;
      call IdentityCheckConfig (rw_check_config w) ;;;
      call IdentityRun (rw_identity_run w)
    else ret tt
  else ret tt.

Definition RegisterSubnetworkCommand_run (w : RegisterWorld) : M unit :=
  let opening := call ConfigCopy (rw_copy w) ;;; call SubtensorOpen (rw_open w) in
  try_finally
    (opening ;;; RegisterSubnetworkCommand__run w)
    (close_if_opened (succeeded opening) (rw_close w)).

(** A run in which everything succeeds and the user answers "Y". *)
Definition world_identity : RegisterWorld :=
  {| rw_no_prompt := false; rw_copy := inr tt; rw_open := inr tt;
     rw_wallet := inr tt; rw_register := inr true; rw_answer := inr "Y"%string;
     rw_close_in_run := inr tt; rw_copy_in_run := inr tt;
     rw_check_config := inr tt; rw_identity_run := inr tt; rw_close := inr tt |}.

(** *** [SubnetLockCostCommand] *)

Record LockCostWorld : Type := {
  lw_copy : exc + unit;
  lw_open : exc + unit;
  (** [get_subnet_burn_cost()] and its rendering as a [Balance] *)
  lw_cost : exc + string;
  lw_close : exc + unit
}.

Definition SubnetLockCostCommand__run (w : LockCostWorld) : M unit :=
  try_except_Exception
    (cost <- call GetSubnetBurnCost (lw_cost w) ;;
     emit (ConsolePrint ("Subnet lock cost: [green]" ++ cost ++ "[/green]")))
    (fun e =>
       emit (ConsolePrint ("Subnet lock cost: [red]Failed to get subnet lock cost[/red]"
                             ++ "Error: " ++ exc_text e))).

Definition SubnetLockCostCommand_run (w : LockCostWorld) : M unit :=
  let opening := call ConfigCopy (lw_copy w) ;;; call SubtensorOpen (lw_open w) in
  try_finally
    (opening ;;; SubnetLockCostCommand__run w)
    (close_if_opened (succeeded opening) (lw_close w)).

Definition KeyboardInterrupt : exc :=
  {| exc_class := "KeyboardInterrupt"; exc_text := "";
     derives_Exception := false |}.

Definition ConnectionError (text : string) : exc :=
  {| exc_class := "ConnectionError"; exc_text := text; derives_Exception := true |}.

(** The cost query is interrupted; the cost query fails on the network. *)
Definition world_interrupted : LockCostWorld :=
  {| lw_copy := inr tt; lw_open := inr tt; lw_cost := inl KeyboardInterrupt;
     lw_close := inr tt |}.

Definition world_unreachable : LockCostWorld :=
  {| lw_copy := inr tt; lw_open := inr tt;
     lw_cost := inl (ConnectionError "timed out"); lw_close := inr tt |}.

(** *** [SubnetListCommand] *)

Record SubnetInfo : Type := {
  netuid : Z;
  subnetwork_n : Z;
  max_n : Z;
  emission_value : Z;
  tempo : Z;
  burn : Z;
  difficulty : Z;
  owner_ss58 : string
}.

Fixpoint spaces (n : nat) : string :=
  match n with
  | O => EmptyString
  | S k => String " " (spaces k)
  end.

(** A Python [str] is a sequence of characters (code points); a text is
    held here as their UTF-8 bytes.  A byte [10xxxxxx] continues the
    character that the bytes before it began. *)
Definition is_continuation (c : ascii) : bool :=
  let n := N_of_ascii c in (128 <=? n)%N && (n <? 192)%N.

(** [len(s)]: the number of characters. *)
Fixpoint characters (s : string) : nat :=
  match s with
  | EmptyString => 0
  | String c r => (if is_continuation c then 0 else 1) + characters r
  end.

(** [s[:n]]: the first [n] characters, each with all its bytes. *)
Fixpoint first_characters (n : nat) (s : string) : string :=
  match s with
  | EmptyString => EmptyString
  | String c r =>
      if is_continuation c then String c (first_characters n r)
      else
        match n with
        | O => EmptyString
        | S k => String c (first_characters k r)
        end
  end.

(** The format specification [8.8] applied to a text: cut after eight
    characters, then filled with blanks on the right up to eight. *)
Definition format_8_8 (s : string) : string :=
  let t := first_characters 8 s in
  (t ++ spaces (8 - characters t))%string.

Section SubnetList.

(** The renderings that the rows use: [str] on an integer,
    [formatting.millify], the emission as a percentage with two decimals,
    [str] on the burn as a balance. *)
Variable str_int : Z -> string.
Variable millify : Z -> string.
Variable emission_percent : Z -> string.
Variable str_balance : Z -> string.

(** [delegate_info] is a dict from addresses to details, of which the rows
    use the name, or [None]. *)
Definition delegates : Type := option (string -> option string).

(** The last cell of a row; [x in None] raises [TypeError]. *)
Definition owner_cell (delegate_info : delegates) (subnet : SubnetInfo) : exc + string :=
  match delegate_info with
  | None => inl (TypeError "argument of type 'NoneType' is not iterable")
  | Some d =>
      match d (owner_ss58 subnet) with
      | Some name => inr name
      | None => inr (owner_ss58 subnet)
      end
  end.

Definition row_cells (subnet : SubnetInfo) (owner : string) : list string :=
  [ str_int (netuid subnet);
    str_int (subnetwork_n subnet);
    millify (max_n subnet);
    emission_percent (emission_value subnet);
    str_int (tempo subnet);
    format_8_8 (str_balance (burn subnet));
    millify (difficulty subnet);
    owner ].

(** The loop over the subnets, from the rows and the total so far. *)
Fixpoint list_loop (delegate_info : delegates) (subnets : list SubnetInfo)
         (rows_so_far : list (list string)) (total_neurons : Z)
  : exc + (list (list string) * Z) :=
  match subnets with
  | [] => inr (rows_so_far, total_neurons)
  | subnet :: rest =>
      let total_neurons := (total_neurons + max_n subnet)%Z in
      match owner_cell delegate_info subnet with
      | inl e => inl e
      | inr owner =>
          list_loop delegate_info rest (rows_so_far ++ [row_cells subnet owner])
                    total_neurons
      end
  end.

Definition list_columns (n_subnets : nat) (total_neurons : Z) (t : Table) : Table :=
  add_column "[overline white]SUDO" ""
    (add_column "[overline white]POW" ""
      (add_column "[overline white]RECYCLE" ""
        (add_column "[overline white]TEMPO" ""
          (add_column "[overline white]EMISSION" ""
            (add_column "[overline white]MAX_N" ""
              (add_column "[overline white]N" (str_int total_neurons)
                (add_column "[overline white]NETUID" (str_int (Z.of_nat n_subnets)) t))))))).

(** The table that [_run] prints, or the exception of the loop. *)
Definition SubnetListCommand_table (network : string) (subnets : list SubnetInfo)
           (delegate_info : delegates) : exc + Table :=
  match list_loop delegate_info subnets [] 0 with
  | inl e => inl e
  | inr (rs, total_neurons) =>
      let t := {| title := ("[white]Subnets - " ++ network)%string;
                  columns := []; rows := [] |} in
      inr (fold_left (fun t row => add_row row t) rs
                     (list_columns (List.length subnets) total_neurons t))
  end.

Definition SubnetListCommand__run (network : string)
           (subnets_info : exc + list SubnetInfo) (delegates_details : exc + delegates)
  : M unit :=
  subnets <- call GetAllSubnetsInfo subnets_info ;;
  delegate_info <- call GetDelegatesDetails delegates_details ;;
  match SubnetListCommand_table network subnets delegate_info with
  | inl e => ([], inl e)
  | inr t => emit (PrintTable t)
  end.

(** [run] opens the connection from the configuration itself, without a
    copy. *)
Definition SubnetListCommand_run (network : string) (opened : exc + unit)
           (subnets_info : exc + list SubnetInfo) (delegates_details : exc + delegates)
           (close : exc + unit) : M unit :=
  let opening := call SubtensorOpen opened in
  try_finally
    (opening ;;; SubnetListCommand__run network subnets_info delegates_details)
    (close_if_opened (succeeded opening) close).

(** The name of the owner when the delegates know the address, the
    address otherwise. *)
Definition owner_name (d : string -> option string) (subnet : SubnetInfo) : string :=
  match d (owner_ss58 subnet) with
  | Some name => name
  | None => owner_ss58 subnet
  end.

End SubnetList.

Definition subnet_one : SubnetInfo :=
  {| netuid := 1; subnetwork_n := 200; max_n := 256; emission_value := 0;
     tempo := 99; burn := 1000000000; difficulty := 10000000;
     owner_ss58 := "5F4tQyWrhfGVcNhoqeiNsR6KjD4wMZ2kfhLj4oHYuyHbZAc3" |}.

(** *** [SubnetHyperparamsCommand] and [SubnetSudoCommand], whole *)

(** The table of [SubnetHyperparamsCommand._run] for the triples that
    [normalize_hyperparameters] returns. *)
Definition hyperparams_table (netuid_text network : string)
           (normalized_values : list (string * string * string)) : Table :=
  fold_left
    (fun t '(param, value, norm_value) =>
       add_row [("  " ++ param)%string; value; norm_value] t)
    normalized_values
    (add_column "[overline white]NORMALIZED" ""
      (add_column "[overline white]VALUE" ""
        (add_column "[overline white]HYPERPARAMETER" ""
          {| title := ("[white]Subnet Hyperparameters - NETUID: " ++ netuid_text
                         ++ " - " ++ network)%string;
             columns := []; rows := [] |}))).

(** [hyperparameters] answers [get_subnet_hyperparameters] followed by
    [normalize_hyperparameters]. *)
Definition SubnetHyperparamsCommand__run (netuid_text network : string)
           (hyperparameters : exc + list (string * string * string)) : M unit :=
  normalized_values <- call GetSubnetHyperparameters hyperparameters ;;
  emit (PrintTable (hyperparams_table netuid_text network normalized_values)).

Definition SubnetHyperparamsCommand_run (netuid_text network : string)
           (opened : exc + unit)
           (hyperparameters : exc + list (string * string * string))
           (close : exc + unit) : M unit :=
  let opening := call SubtensorOpen opened in
  try_finally
    (opening ;;; SubnetHyperparamsCommand__run netuid_text network hyperparameters)
    (close_if_opened (succeeded opening) close).

(** The answers of the collaborators to one invocation of
    [SubnetSudoCommand.run]: its own connection, the wallet, the
    connection and the query of the display, the extrinsic. *)
Record SudoWorld : Type := {
  sw_network : string;
  sw_open : exc + unit;
  sw_wallet : exc + unit;
  sw_display_open : exc + unit;
  sw_hyperparameters : exc + list (string * string * string);
  sw_display_close : exc + unit;
  sw_set : exc + unit;
  sw_close : exc + unit
}.

Definition newline : string := String (Ascii.ascii_of_nat 10) EmptyString.

Section SudoCommand.

Variable py_float : string -> option float.
Variable ask_param : string.
Variable ask_value : string.

(** [str] on the netuid, and the text of the exception that [_run] raises
    itself, which [SubnetSudoCommand_run_config] does not build. *)
Variable str_int : Z -> string.
Variable text_of : exn -> string.

Definition exc_of_exn (e : exn) : exc :=
  {| exc_class := match e with
                  | ValueError => "ValueError"
                  | AttributeError => "AttributeError"
                  end;
     exc_text := text_of e;
     derives_Exception := true |}.

Definition ask_when (shown : bool) (ev : event) : M unit :=
  if shown then emit ev else ret tt.

Definition SubnetSudoCommand__run (w : SudoWorld) (c : SudoConfig) : M unit :=
  call WalletOpen (sw_wallet w) ;;;
  emit (StdoutPrint newline) ;;;
  SubnetHyperparamsCommand_run (str_int (config_netuid c)) (sw_network w)
    (sw_display_open w) (sw_hyperparameters w) (sw_display_close w) ;;;
  ask_when (negb (param_is_set c) && negb (no_prompt c)) AskParam ;;;
  ask_when (negb (value_is_set c) && negb (no_prompt c)) AskValue ;;;
  match SubnetSudoCommand_run_config py_float ask_param ask_value c with
  | inl e => ([], inl (exc_of_exn e))
  | inr set => call (SetHyperparameterCall set) (sw_set w)
  end.

Definition SubnetSudoCommand_run_cli (w : SudoWorld) (c : SudoConfig) : M unit :=
  let opening := call SubtensorOpen (sw_open w) in
  try_finally
    (opening ;;; SubnetSudoCommand__run w c)
    (close_if_opened (succeeded opening) (sw_close w)).

End SudoCommand.

Definition is_set_call (ev : event) : bool :=
  match ev with SetHyperparameterCall _ => true | _ => false end.

(** A world in which every collaborator answers, and a configuration that
    asks for an [alpha_values] pair in the wrong order. *)
Definition world_answering : SudoWorld :=
  {| sw_network := "finney"; sw_open := inr tt; sw_wallet := inr tt;
     sw_display_open := inr tt;
     sw_hyperparameters := inr [("rho", "10", "10")]%string;
     sw_display_close := inr tt; sw_set := inr tt; sw_close := inr tt |}.

Definition config_bad_alpha : SudoConfig :=
  {| config_netuid := 1; config_param := Some "alpha_values";
     config_value := Some "60000,100"; param_is_set := true; value_is_set := true;
     no_prompt := true |}.

(** The hotkey file of the wallet cannot be read. *)
Definition KeyFileError : exc :=
  {| exc_class := "KeyFileError"; exc_text := "Keyfile does not exist";
     derives_Exception := true |}.

Definition world_no_keyfile : SudoWorld :=
  {| sw_network := "finney"; sw_open := inr tt; sw_wallet := inl KeyFileError;
     sw_display_open := inr tt;
     sw_hyperparameters := inr [("rho", "10", "10")]%string;
     sw_display_close := inr tt; sw_set := inr tt; sw_close := inr tt |}.

Definition config_rho : SudoConfig :=
  {| config_netuid := 1; config_param := Some "rho";
     config_value := Some "12"; param_is_set := true; value_is_set := true;
     no_prompt := false |}.

End NetworkCommands.

(* ================================================================== *)
(** ** [generate_subtensor_tests.py]: wrapping the methods of a class *)

From stdpp Require gmap strings.

Module Tracing.
Import stdpp.base stdpp.list stdpp.gmap stdpp.strings.

Section Decorate.

(** The attributes of a class, as [getattr] finds them by name;
    [isinstance(_, types.FunctionType)]; the wrapper [NeuroTrace] of
    [record_replay]. *)
Context {attr : Type}.
Variable is_function : attr -> bool.
Variable NeuroTrace : attr -> attr.

(** The body of the loop, for one name. *)
Definition decorate_method (cls : gmap string attr) (name : string) : gmap string attr :=
  match cls !! name with
  | Some original_method =>
      if is_function original_method
      then <[name := NeuroTrace original_method]> cls
      else cls
  | None => cls
  end.

Definition decorate_class_methods (cls : gmap string attr) (method_names : list string)
  : gmap string attr :=
  foldl decorate_method cls method_names.

End Decorate.

Definition methods_to_decorate : list string :=
  [ "get_all_subnets_info"; "get_subnet_info"; "get_delegate_by_hotkey";
    "get_delegates"; "get_delegated"; "neuron_for_uid"; "_do_delegation";
    "_do_undelegation"; "_do_nominate"; "get_balance"; "get_current_block";
    "get_balances"; "_do_set_weights"; "_do_pow_register"; "_do_burned_register";
    "_do_swap_hotkey"; "_do_transfer"; "_do_serve_axon"; "_do_serve_prometheus";
    "_do_associate_ips"; "_do_stake"; "_do_unstake"; "_do_root_register";
    "query_identity"; "update_identity"; "query_subtensor"; "query_map_subtensor";
    "query_constant"; "query_module"; "state_call" ]%string.

(** A class whose attributes are plain functions, traced functions (the
    wrapper an object of its own, not a function) or anything else. *)
Inductive attribute : Type :=
| Function (name : string)
| Traced (original : attribute)
| Other (name : string).

Definition attribute_is_function (a : attribute) : bool :=
  match a with Function _ => true | _ => false end.

Definition some_class : gmap string attribute :=
  <["get_balance" := Function "get_balance"]>
    (<["network" := Other "network"]>
       (<["state_call" := Function "state_call"]> ∅)).

End Tracing.

(* ================================================================== *)
(** * Properties *)

(** ** [network.py] *)

Module NetworkFacts.
Import Py Network.

(** *** Comparisons of binary64 values *)

Lemma SFcompare_antisym (x y : float) :
  SFcompare y x = option_map CompOpp (SFcompare x y).
Proof.
  destruct x as [sx|sx| |sx mx ex], y as [sy|sy| |sy my ey]; simpl;
    try reflexivity;
    try (destruct sx; reflexivity); try (destruct sy; reflexivity);
    try (destruct sx, sy; reflexivity).
  destruct sx, sy; simpl; try reflexivity;
    rewrite (Z.compare_antisym ex ey);
    destruct (ex ?= ey)%Z; simpl; try reflexivity;
    rewrite (Pos.compare_cont_antisym mx my Eq); simpl;
    try rewrite CompOpp_involutive; reflexivity.
Qed.

Lemma SFcompare_nan_iff (x y : float) :
  SFcompare x y = None <-> is_nan x = true \/ is_nan y = true.
Proof.
  destruct x as [sx|sx| |sx mx ex], y as [sy|sy| |sy my ey]; simpl;
    split; intros H; try discriminate; auto;
    try (destruct H; discriminate).
Qed.

(** Away from NaN, [x <= y] is the negation of [x > y]. *)
Lemma fle_negb_fgt (x y : float) :
  is_nan x = false -> is_nan y = false -> fle x y = negb (fgt x y).
Proof.
  intros Hx Hy. unfold fle, fgt, SFleb, SFltb.
  rewrite (SFcompare_antisym x y).
  destruct (SFcompare x y) as [[| |]|] eqn:E; simpl; try reflexivity.
  apply SFcompare_nan_iff in E. destruct E; congruence.
Qed.

Lemma fge_negb_flt (x y : float) :
  is_nan x = false -> is_nan y = false -> fge x y = negb (flt x y).
Proof.
  intros Hx Hy. unfold fge, flt, SFleb, SFltb.
  rewrite (SFcompare_antisym x y).
  destruct (SFcompare x y) as [[| |]|] eqn:E; simpl; try reflexivity.
  apply SFcompare_nan_iff in E. destruct E; congruence.
Qed.

(** On NaN every comparison is false. *)
Lemma compare_nan_l (y : float) :
  flt nan y = false /\ fle nan y = false /\ fgt nan y = false /\ fge nan y = false.
Proof. destruct y; repeat split; reflexivity. Qed.

(** *** [split] *)

Lemma split_comma_nonempty (s : string) : split_comma s <> [].
Proof.
  induction s as [|c r IH]; simpl; [discriminate|].
  destruct (Ascii.eqb c ","); [discriminate|].
  destruct (split_comma r); discriminate.
Qed.

(** *** [allowed_value], case by case *)

Section Cases.
Variable py_float : string -> option float.

Lemma allowed_value_bool (param : string) (b : bool) :
  allowed_value py_float param (VBool b) = inr (true, PValue (VBool b)).
Proof. reflexivity. Qed.

Lemma allowed_value_other_param (param : string) (v : value) :
  param <> "alpha_values" ->
  allowed_value py_float param v = inr (true, PValue v).
Proof.
  intros Hp. apply String.eqb_neq in Hp.
  unfold allowed_value, allowed_value_try. rewrite Hp.
  destruct v; reflexivity.
Qed.

(** The two bound checks, once both parts have parsed. *)
Lemma allowed_value_alpha (s lo hi : string) (alpha_low alpha_high : float) :
  split_comma s = [lo; hi] ->
  py_float lo = Some alpha_low ->
  py_float hi = Some alpha_high ->
  allowed_value py_float "alpha_values" (VStr s) =
    if fle alpha_high c52428 || fge alpha_high c65535
    then inr (false, PMsg (msg_alpha_high alpha_high))
    else if flt alpha_low c0 || fgt alpha_low c52428
         then inr (false, PMsg (msg_alpha_low alpha_low))
         else inr (true, PList [alpha_low; alpha_high]).
Proof.
  intros Hs Hlo Hhi. unfold allowed_value, allowed_value_try.
  replace (String.eqb "alpha_values" "alpha_values") with true by reflexivity.
  rewrite Hs, Hhi, Hlo. fold c52428 c65535 c0.
  destruct (fle alpha_high c52428 || fge alpha_high c65535);
    [reflexivity|].
  destruct (flt alpha_low c0 || fgt alpha_low c52428); reflexivity.
Qed.

(** Away from NaN the checks are the bounds of the claim. *)
Lemma allowed_value_alpha_no_nan (s lo hi : string) (alpha_low alpha_high : float) :
  split_comma s = [lo; hi] ->
  py_float lo = Some alpha_low ->
  py_float hi = Some alpha_high ->
  is_nan alpha_low = false ->
  is_nan alpha_high = false ->
  (allowed_value py_float "alpha_values" (VStr s)
     = inr (true, PList [alpha_low; alpha_high])
   <-> alpha_high_in_bounds alpha_high = true /\ alpha_low_in_bounds alpha_low = true)
  /\ (alpha_high_in_bounds alpha_high = false ->
      allowed_value py_float "alpha_values" (VStr s)
        = inr (false, PMsg (msg_alpha_high alpha_high)))
  /\ (alpha_high_in_bounds alpha_high = true ->
      alpha_low_in_bounds alpha_low = false ->
      allowed_value py_float "alpha_values" (VStr s)
        = inr (false, PMsg (msg_alpha_low alpha_low))).
Proof.
  intros Hs Hlo Hhi Nlo Nhi.
  rewrite (allowed_value_alpha s lo hi alpha_low alpha_high Hs Hlo Hhi).
  unfold alpha_high_in_bounds, alpha_low_in_bounds.
  rewrite (fle_negb_fgt alpha_high c52428 Nhi eq_refl).
  rewrite (fge_negb_flt alpha_high c65535 Nhi eq_refl).
  rewrite (fle_negb_fgt alpha_low c52428 Nlo eq_refl).
  change (flt c52428 alpha_high) with (fgt alpha_high c52428).
  change (fle c0 alpha_low) with (fge alpha_low c0).
  rewrite (fge_negb_flt alpha_low c0 Nlo eq_refl).
  destruct (fgt alpha_high c52428), (flt alpha_high c65535),
    (flt alpha_low c0), (fgt alpha_low c52428); simpl;
    repeat split; intros; try discriminate; try reflexivity;
    try (destruct H; discriminate); auto.
Qed.

End Cases.

(** *** The boolean parameters of [SubnetSudoCommand._run] *)

Lemma is_boolean_param_In (param : string) :
  is_boolean_param param = true <-> In param boolean_params.
Proof.
  unfold is_boolean_param, boolean_params. simpl.
  rewrite !orb_true_iff, !String.eqb_eq.
  split; intros H.
  - destruct H as [[[H|H]|H]|H]; subst; auto.
  - destruct H as [H|[H|[H|[H|[]]]]]; subst; auto.
Qed.

Lemma coerce_value_boolean (param v : string) :
  In param boolean_params ->
  coerce_value param v = VBool (String.eqb (lower v) "true" || String.eqb v "1").
Proof.
  intros H. apply is_boolean_param_In in H. unfold coerce_value. now rewrite H.
Qed.

Lemma coerce_value_other (param v : string) :
  ~ In param boolean_params -> coerce_value param v = VStr v.
Proof.
  intros H. unfold coerce_value.
  destruct (is_boolean_param param) eqn:E; [|reflexivity].
  apply is_boolean_param_In in E. contradiction.
Qed.

(** *** The claims about [network.py] *)

(** C8 (the code departs from the claim at NaN).  With
    [param = "alpha_values"] and [value = "nan,nan"] both parts parse as
    floats and [allowed_value] returns [(True, [nan, nan])], although
    neither [52428 < alpha_high < 65535] nor [0 <= alpha_low <= 52428]
    holds: every comparison with NaN is false, so neither of the two
    rejecting tests fires, and [_run] hands the list on to
    [set_hyperparameter]. *)
Theorem allowed_value_accepts_nan :
  two_floats float_of_string "nan,nan" = true
  /\ allowed_value float_of_string "alpha_values" (VStr "nan,nan")
     = inr (true, PList [nan; nan])
  /\ alpha_high_in_bounds nan = false
  /\ alpha_low_in_bounds nan = false
  /\ SubnetSudoCommand_run float_of_string "alpha_values" "nan,nan"
     = inr (PList [nan; nan]).
Proof. repeat split; vm_compute; reflexivity. Qed.

(** C9.  [allowed_value] returns on every string given for
    ["alpha_values"]; when the string is not made of exactly two
    comma-separated parts that both parse as floats, the [try] block raises
    [ValueError] (from the unpacking or from [float]) and the function
    returns [(False, "a number or a boolean")]. *)
Theorem allowed_value_alpha_values_total
        (py_float : string -> option float) (s : string) :
  (exists r, allowed_value py_float "alpha_values" (VStr s) = inr r)
  /\ (two_floats py_float s = false ->
      allowed_value_try py_float "alpha_values" (VStr s) = inl ValueError
      /\ allowed_value py_float "alpha_values" (VStr s)
         = inr (false, PMsg msg_number_or_boolean)).
Proof.
  assert (Hfail : forall l,
             split_comma s = l ->
             two_floats py_float s = false ->
             allowed_value_try py_float "alpha_values" (VStr s) = inl ValueError).
  { intros l Hl. unfold two_floats, allowed_value_try.
    replace (String.eqb "alpha_values" "alpha_values") with true by reflexivity.
    destruct (split_comma s) as [|lo [|hi [|x t]]]; try reflexivity.
    destruct (py_float hi), (py_float lo); try reflexivity; discriminate. }
  destruct (two_floats py_float s) eqn:Htwo.
  - split; [|discriminate].
    unfold two_floats in Htwo.
    destruct (split_comma s) as [|lo [|hi [|x t]]] eqn:Hs; try discriminate.
    destruct (py_float lo) as [alpha_low|] eqn:Hlo; [|discriminate].
    destruct (py_float hi) as [alpha_high|] eqn:Hhi; [|discriminate].
    rewrite (allowed_value_alpha py_float s lo hi alpha_low alpha_high Hs Hlo Hhi).
    destruct (fle alpha_high c52428 || fge alpha_high c65535); [eexists; reflexivity|].
    destruct (flt alpha_low c0 || fgt alpha_low c52428); eexists; reflexivity.
  - pose proof (Hfail _ eq_refl eq_refl) as E.
    unfold allowed_value. rewrite E.
    split; [eexists; reflexivity | intros _; split; reflexivity].
Qed.

Lemma allowed_value_alpha_values_total_witness :
  two_floats float_of_string "0.5;60000" = false
  /\ two_floats float_of_string "1,2,3" = false
  /\ two_floats float_of_string "1,high" = false
  /\ allowed_value float_of_string "alpha_values" (VStr "1,high")
     = inr (false, PMsg msg_number_or_boolean).
Proof.
  split; [reflexivity|]. split; [reflexivity|]. split; [reflexivity|].
  exact (proj2 (proj2 (allowed_value_alpha_values_total float_of_string "1,high")
                      eq_refl)).
Defined.

(** C10.  For the four parameters [network_registration_allowed],
    [network_pow_registration_allowed], [commit_reveal_weights_enabled] and
    [liquid_alpha_enabled], and only for them, [_run] replaces the string
    by a boolean, which is [True] exactly when the string is ["1"] or
    equals ["true"] up to case; any other string becomes [False] and the
    boolean is passed on to [set_hyperparameter] without an error.  For
    every other parameter the string is left as it is. *)
Theorem sudo_boolean_coercion
        (py_float : string -> option float) (param v : string) :
  (is_boolean_param param = true <-> In param boolean_params)
  /\ (In param boolean_params ->
      (coerce_value param v = VBool true <-> (lower v = "true" \/ v = "1"))
      /\ (~ (lower v = "true" \/ v = "1") -> coerce_value param v = VBool false)
      /\ SubnetSudoCommand_run py_float param v = inr (PValue (coerce_value param v)))
  /\ (~ In param boolean_params -> coerce_value param v = VStr v).
Proof.
  split; [apply is_boolean_param_In|].
  split; [|apply coerce_value_other].
  intros Hin. rewrite (coerce_value_boolean param v Hin).
  assert (Hb : (String.eqb (lower v) "true" || String.eqb v "1") = true
               <-> (lower v = "true" \/ v = "1")).
  { rewrite orb_true_iff, !String.eqb_eq. reflexivity. }
  repeat split.
  - intros H. apply Hb. now injection H.
  - intros H. apply Hb in H. now rewrite H.
  - intros H. destruct (String.eqb (lower v) "true" || String.eqb v "1");
      [exfalso; apply H, Hb; reflexivity | reflexivity].
  - unfold SubnetSudoCommand_run. rewrite (coerce_value_boolean param v Hin).
    reflexivity.
Qed.

Lemma sudo_boolean_coercion_witness :
  coerce_value "liquid_alpha_enabled" "TrUe" = VBool true
  /\ coerce_value "liquid_alpha_enabled" "yes" = VBool false
  /\ coerce_value "commit_reveal_weights_enabled" "TRUE " = VBool false
  /\ SubnetSudoCommand_run float_of_string "network_registration_allowed" "0"
     = inr (PValue (VBool false))
  /\ coerce_value "kappa" "true" = VStr "true".
Proof.
  pose (T := sudo_boolean_coercion float_of_string).
  pose (B := fun p v (H : is_boolean_param p = true) =>
               proj1 (proj2 (T p v)) (proj1 (proj1 (T p v)) H)).
  refine (conj _ (conj _ (conj _ (conj _ _)))).
  - apply (proj1 (B "liquid_alpha_enabled" "TrUe" eq_refl)).
    left; reflexivity.
  - apply (proj1 (proj2 (B "liquid_alpha_enabled" "yes" eq_refl))).
    intros [H|H]; discriminate H.
  - apply (proj1 (proj2 (B "commit_reveal_weights_enabled" "TRUE " eq_refl))).
    intros [H|H]; discriminate H.
  - exact (proj2 (proj2 (B "network_registration_allowed" "0" eq_refl))).
  - apply (proj2 (proj2 (T "kappa" "true"))).
    intros H. apply (proj2 (proj1 (T "kappa" ""))) in H. discriminate H.
Defined.

End NetworkFacts.

(** ** The registration orchestrator *)

Module RegistrationFacts.
Import Registration.
Local Open Scope list_scope.

(** *** Traces *)

Lemma poll_results_app (a b : list event) :
  poll_results (a ++ b) = poll_results a ++ poll_results b.
Proof. apply flat_map_app. Qed.

Lemma height_queries_app (a b : list event) :
  height_queries (a ++ b) = height_queries a ++ height_queries b.
Proof. apply flat_map_app. Qed.

Lemma solve_results_app (a b : list event) :
  solve_results (a ++ b) = solve_results a ++ solve_results b.
Proof. apply flat_map_app. Qed.

Lemma verifications_app (a b : list event) :
  verifications (a ++ b) = verifications a ++ verifications b.
Proof. apply flat_map_app. Qed.

Lemma submissions_app (a b : list event) :
  submissions (a ++ b) = submissions a ++ submissions b.
Proof. apply flat_map_app. Qed.

Lemma fresh_solutions_app (a b : list event) :
  fresh_solutions (a ++ b) = fresh_solutions a ++ fresh_solutions b.
Proof. apply flat_map_app. Qed.

Lemma timeouts_app (a b : list event) :
  timeouts (a ++ b) = timeouts a ++ timeouts b.
Proof. apply filter_app. Qed.

Create Rewrite HintDb trace_db.
#[local] Hint Rewrite poll_results_app height_queries_app solve_results_app
  verifications_app submissions_app fresh_solutions_app timeouts_app
  existsb_app map_app filter_app length_app app_nil_r : trace_db.

Ltac trace_simpl := autorewrite with trace_db in *; simpl in *.

(** The solutions that passed verification are the verifications that
    were not stale. *)
Lemma fresh_solutions_verifications (tr : list event) :
  fresh_solutions tr = map fst (filter (fun v => negb (snd v)) (verifications tr)).
Proof.
  induction tr as [|e tr IH]; [reflexivity|].
  change (e :: tr) with ([e] ++ tr).
  rewrite fresh_solutions_app, verifications_app, filter_app, map_app, IH.
  f_equal. destruct e as [| | |s h [|]|]; reflexivity.
Qed.

Section Run.

Variable cfg : Config.
Variable w : World.

#[local] Abbreviation step := (step cfg w).
#[local] Abbreviation steps := (steps cfg w).
#[local] Abbreviation run := (run cfg w).

Lemma steps_add (n m : nat) (st : state) :
  steps (n + m) st = steps m (steps n st).
Proof. revert st; induction n as [|n IH]; intros st; simpl; auto. Qed.

Lemma steps_S_r (n : nat) (st : state) : steps (S n) st = step (steps n st).
Proof.
  replace (S n) with (n + 1) by lia. rewrite steps_add. reflexivity.
Qed.

Lemma run_S (n : nat) : run (S n) = step (run n).
Proof. apply steps_S_r. Qed.

(** An invariant of [step] that holds initially holds along the run. *)
Lemma run_invariant (P : state -> Prop) :
  P init -> (forall st, P st -> P (step st)) -> forall n, P (run n).
Proof.
  intros H0 HS n. induction n as [|n IH]; [exact H0|].
  rewrite run_S. apply HS, IH.
Qed.

(** Terminal states have no further side effects. *)
Lemma step_terminal (st : state) :
  is_terminal (ph st) = true -> step st = st.
Proof.
  unfold Registration.step. destruct (ph st); simpl; try discriminate; reflexivity.
Qed.

Lemma steps_terminal (n : nat) (st : state) :
  is_terminal (ph st) = true -> steps n st = st.
Proof.
  intros H. induction n as [|n IH]; [reflexivity|].
  simpl. rewrite step_terminal; assumption.
Qed.

Lemma run_terminal (n m : nat) :
  is_terminal (ph (run n)) = true -> run (n + m) = run n.
Proof.
  intros H. unfold Registration.run. rewrite steps_add.
  apply steps_terminal, H.
Qed.

(** *** Invariants of the run *)

(** Case analysis on the step taken from [st]. *)
Ltac step_cases st :=
  unfold Registration.step;
  let Hph := fresh "Hph" in
  destruct (ph st) eqn:Hph; simpl;
  [ | destruct (is_hotkey_registered w _) eqn:?
    | destruct (await_solution w _ _) eqn:?
    | destruct (is_stale cfg _ _) eqn:?
    | destruct (submit_pow_register w _ _) as [[|] [[|]|]] eqn:?
    | | | ];
  try destruct (exhausted cfg _) eqn:?;
  simpl.

Lemma closed_by_last_step (st : state) :
  closed_by_last st -> closed_by_last (step st).
Proof.
  unfold closed_by_last. intros H.
  step_cases st; rewrite ?Hph in *; trace_simpl;
    try solve [ assumption | rewrite H; reflexivity
              | eexists _, _; split; [reflexivity|]; split;
                [reflexivity | assumption] ].
Qed.

Lemma closed_by_last_run (n : nat) : closed_by_last (run n).
Proof. apply run_invariant; [reflexivity | apply closed_by_last_step]. Qed.

Lemma submits_fresh_step (st : state) :
  submits_fresh st -> submits_fresh (step st).
Proof.
  unfold submits_fresh. intros H.
  step_cases st; rewrite ?Hph in *; trace_simpl;
    try solve [ assumption | rewrite <- H; reflexivity
              | rewrite <- H; rewrite <- ?app_assoc; reflexivity ].
Qed.

Lemma submits_fresh_run (n : nat) : submits_fresh (run n).
Proof. apply run_invariant; [reflexivity | apply submits_fresh_step]. Qed.

Lemma attempts_counted_step (st : state) :
  attempts_counted st -> attempts_counted (step st).
Proof.
  unfold attempts_counted. intros H.
  step_cases st; trace_simpl; lia.
Qed.

Lemma attempts_counted_run (n : nat) : attempts_counted (run n).
Proof. apply run_invariant; [reflexivity | apply attempts_counted_step]. Qed.

Lemma exhausted_true (a : nat) : exhausted cfg a = true <-> max_attempts cfg <= a.
Proof. apply Nat.leb_le. Qed.

Lemma exhausted_false (a : nat) : exhausted cfg a = false <-> a < max_attempts cfg.
Proof. apply Nat.leb_gt. Qed.

Lemma attempts_bounded_step (st : state) :
  attempts_bounded cfg st -> attempts_bounded cfg (step st).
Proof.
  unfold attempts_bounded. intros H.
  step_cases st; rewrite ?Hph in *; trace_simpl;
    repeat match goal with
           | E : exhausted cfg _ = true |- _ => apply exhausted_true in E
           | E : exhausted cfg _ = false |- _ => apply exhausted_false in E
           end;
    try assumption; lia.
Qed.

Lemma attempts_bounded_run (n : nat) :
  1 <= max_attempts cfg -> attempts_bounded cfg (run n).
Proof.
  intros Hmax. apply run_invariant; [|apply attempts_bounded_step].
  unfold attempts_bounded; simpl. lia.
Qed.

Lemma searches_accounted_step (st : state) :
  searches_accounted st -> searches_accounted (step st).
Proof.
  unfold searches_accounted. intros H.
  step_cases st; rewrite ?Hph in *; trace_simpl; lia.
Qed.

Lemma searches_accounted_run (n : nat) : searches_accounted (run n).
Proof. apply run_invariant; [reflexivity | apply searches_accounted_step]. Qed.

Lemma answers_recorded_app (l : list (POWSolution * (bool * option reason)))
      (s : POWSolution) :
  (forall k x, nth_error l k = Some x -> snd x = submit_pow_register w k (fst x)) ->
  forall k x,
    nth_error (l ++ [(s, submit_pow_register w (List.length l) s)]) k = Some x ->
    snd x = submit_pow_register w k (fst x).
Proof.
  intros H k x Hk.
  destruct (Nat.lt_ge_cases k (List.length l)) as [Hlt|Hge].
  - rewrite nth_error_app1 in Hk by exact Hlt. apply H, Hk.
  - rewrite nth_error_app2 in Hk by exact Hge.
    destruct (k - List.length l) as [|j] eqn:Ej; simpl in Hk.
    + injection Hk as <-. simpl. f_equal. lia.
    + destruct j; discriminate Hk.
Qed.

Lemma answers_recorded_step (st : state) :
  answers_recorded w st -> answers_recorded w (step st).
Proof.
  unfold answers_recorded. intros H.
  unfold Registration.step.
  destruct (ph st) eqn:Hph; simpl; try exact H;
    try (rewrite submissions_app; simpl; rewrite app_nil_r; exact H).
  - destruct (await_solution w _ _); simpl;
      rewrite submissions_app; simpl; rewrite app_nil_r; exact H.
  - destruct (submit_pow_register w (List.length (submissions (trace st))) s)
      as [[|] why] eqn:E; simpl; rewrite submissions_app; simpl;
      rewrite <- E; apply answers_recorded_app; exact H.
Qed.

Lemma answers_recorded_run (n : nat) : answers_recorded w (run n).
Proof.
  apply run_invariant; [|apply answers_recorded_step].
  intros k x Hk. destruct k; discriminate Hk.
Qed.

(** *** Events and what the trace shows of them *)

Lemma poll_results_In (b : bool) (tr : list event) :
  In b (poll_results tr) -> In (EPoll b) tr.
Proof.
  unfold poll_results. rewrite in_flat_map. intros [e [He Hb]].
  destruct e; simpl in Hb; try contradiction.
  destruct Hb as [<-|[]]. exact He.
Qed.

Lemma submissions_In (x : POWSolution * (bool * option reason)) (tr : list event) :
  In x (submissions tr) <-> In (ESubmit (fst x) (snd x)) tr.
Proof.
  unfold submissions. rewrite in_flat_map. split.
  - intros [e [He Hx]]. destruct e; simpl in Hx; try contradiction.
    destruct Hx as [<-|[]]. exact He.
  - intros H. eexists; split; [exact H|]. destruct x; left; reflexivity.
Qed.

Lemma closing_not_in (e : event) (tr : list event) :
  existsb closing tr = false -> closing e = true -> ~ In e tr.
Proof.
  intros Hno Hc Hin.
  assert (existsb closing tr = true) by (apply existsb_exists; eauto).
  congruence.
Qed.

(** A closing event in the trace of a run: the run has succeeded and the
    event is the last one. *)
Lemma closing_event_last (n : nat) (e : event) :
  closing e = true -> In e (trace (run n)) ->
  ph (run n) = Success
  /\ exists pre, trace (run n) = pre ++ [e] /\ existsb closing pre = false.
Proof.
  intros Hc Hin. pose proof (closed_by_last_run n) as H.
  unfold closed_by_last in H.
  destruct (ph (run n)) eqn:Hph;
    try (exfalso; exact (closing_not_in e _ H Hc Hin)).
  split; [reflexivity|].
  destruct H as (pre & e' & Htr & Hc' & Hno).
  rewrite Htr in Hin |- *. apply in_app_or in Hin.
  destruct Hin as [Hin|[->|[]]].
  - exfalso. exact (closing_not_in e _ Hno Hc Hin).
  - exists pre. split; [reflexivity | exact Hno].
Qed.

(** *** The steps, phase by phase *)

Lemma step_idle (st : state) :
  ph st = Idle ->
  step st = {| ph := CheckRegistered; attempts_made := attempts_made st;
               trace := trace st |}.
Proof. intros H. unfold Registration.step. rewrite H. reflexivity. Qed.

Lemma step_check (st : state) :
  ph st = CheckRegistered ->
  step st =
    let b := is_hotkey_registered w (List.length (poll_results (trace st))) in
    {| ph := if b then Success else Solving; attempts_made := attempts_made st;
       trace := trace st ++ [EPoll b] |}.
Proof. intros H. unfold Registration.step. rewrite H. reflexivity. Qed.

Lemma step_solving_found (st : state) (found : N * bytes) :
  ph st = Solving ->
  await_solution w (List.length (solve_results (trace st))) (fetch_block w (trace st))
    = Some found ->
  step st =
    let blk := fetch_block w (trace st) in
    let s := solution_of blk found in
    {| ph := Verifying s; attempts_made := attempts_made st;
       trace := trace st ++ [EFetch blk; ESolve (Some s)] |}.
Proof. intros H E. unfold Registration.step. rewrite H, E. reflexivity. Qed.

Lemma step_solving_timeout (st : state) :
  ph st = Solving ->
  await_solution w (List.length (solve_results (trace st))) (fetch_block w (trace st))
    = None ->
  step st =
    let a := S (attempts_made st) in
    {| ph := if exhausted cfg a then Failure else CheckRegistered;
       attempts_made := a;
       trace := trace st ++ [EFetch (fetch_block w (trace st)); ESolve None] |}.
Proof. intros H E. unfold Registration.step. rewrite H, E. reflexivity. Qed.

Lemma step_verifying (st : state) (s : POWSolution) :
  ph st = Verifying s ->
  step st =
    let h := get_current_block w (List.length (height_queries (trace st))) in
    let stale := is_stale cfg s h in
    {| ph := if stale then Solving else Submitting s;
       attempts_made := attempts_made st;
       trace := trace st ++ [EVerify s h stale] |}.
Proof. intros H. unfold Registration.step. rewrite H. reflexivity. Qed.

Lemma step_submitting_accepted (st : state) (s : POWSolution) (why : option reason) :
  ph st = Submitting s ->
  submit_pow_register w (List.length (submissions (trace st))) s = (true, why) ->
  step st =
    {| ph := Success; attempts_made := attempts_made st;
       trace := trace st ++ [ESubmit s (true, why)] |}.
Proof. intros H E. unfold Registration.step. rewrite H, E. reflexivity. Qed.

Lemma step_submitting_rejected (st : state) (s : POWSolution) (why : option reason) :
  ph st = Submitting s ->
  submit_pow_register w (List.length (submissions (trace st))) s = (false, why) ->
  step st =
    let a := S (attempts_made st) in
    {| ph := match why with
             | Some HotKeyAlreadyRegistered => Success
             | _ => if exhausted cfg a then Failure else RetrySolving
             end;
       attempts_made := a;
       trace := trace st ++ [ESubmit s (false, why)] |}.
Proof. intros H E. unfold Registration.step. rewrite H, E. reflexivity. Qed.

Lemma step_retry (st : state) :
  ph st = RetrySolving ->
  step st = {| ph := Solving; attempts_made := attempts_made st; trace := trace st |}.
Proof. intros H. unfold Registration.step. rewrite H. reflexivity. Qed.

(** *** Worlds in which every attempt fails *)

Lemma found_is_fresh (tr : list event) (found : N * bytes) :
  never_stale cfg w ->
  is_stale cfg (solution_of (fetch_block w tr) found)
           (get_current_block w (S (List.length (height_queries tr)))) = false.
Proof.
  intros Hns. unfold is_stale. apply Z.ltb_ge. simpl. apply Hns.
Qed.

(** A timed-out search is a failed attempt: the machine is back in
    [Solving] after a negative poll, or has failed. *)
Lemma timeout_attempt (st : state) :
  never_registered w ->
  ph st = Solving ->
  await_solution w (List.length (solve_results (trace st))) (fetch_block w (trace st))
    = None ->
  exists n,
    attempts_made (steps n st) = S (attempts_made st)
    /\ ph (steps n st) = if exhausted cfg (S (attempts_made st)) then Failure else Solving.
Proof.
  intros Hnr Hph E.
  pose proof (step_solving_timeout st Hph E) as E1. cbv zeta in E1.
  destruct (exhausted cfg (S (attempts_made st))) eqn:Hex.
  - exists 1. simpl. rewrite E1. split; reflexivity.
  - exists 2. simpl.
    rewrite (step_check (step st)); rewrite E1; [|reflexivity].
    cbv zeta. rewrite Hnr. split; reflexivity.
Qed.

(** A search that delivers: the solution is verified against the height
    of the next query, and discarded or passed on. *)
Lemma solve_then_verify (st : state) (found : N * bytes) :
  ph st = Solving ->
  await_solution w (List.length (solve_results (trace st))) (fetch_block w (trace st))
    = Some found ->
  steps 2 st =
    let blk := fetch_block w (trace st) in
    let s := solution_of blk found in
    let h := get_current_block w (S (List.length (height_queries (trace st)))) in
    {| ph := if is_stale cfg s h then Solving else Submitting s;
       attempts_made := attempts_made st;
       trace := trace st ++ [EFetch blk; ESolve (Some s); EVerify s h (is_stale cfg s h)] |}.
Proof.
  intros Hph E.
  pose proof (step_solving_found st found Hph E) as E1. cbv zeta in E1.
  cbv zeta. set (s := solution_of (fetch_block w (trace st)) found) in *.
  simpl. set (st1 := step st) in *.
  assert (Hph1 : ph st1 = Verifying s) by (rewrite E1; reflexivity).
  rewrite (step_verifying st1 s Hph1). cbv zeta.
  assert (Hq : List.length (height_queries (trace st1))
               = S (List.length (height_queries (trace st)))).
  { rewrite E1. simpl. rewrite height_queries_app, length_app. simpl. lia. }
  rewrite Hq. rewrite E1. simpl. rewrite <- app_assoc. reflexivity.
Qed.

(** A fresh solution that the Ledger rejects is a failed attempt. *)
Lemma rejected_attempt (st : state) (found : N * bytes) :
  always_rejected w ->
  ph st = Solving ->
  await_solution w (List.length (solve_results (trace st))) (fetch_block w (trace st))
    = Some found ->
  is_stale cfg (solution_of (fetch_block w (trace st)) found)
           (get_current_block w (S (List.length (height_queries (trace st))))) = false ->
  exists n,
    attempts_made (steps n st) = S (attempts_made st)
    /\ ph (steps n st) = if exhausted cfg (S (attempts_made st)) then Failure else Solving.
Proof.
  intros Hrej Hph E Hfresh.
  pose proof (solve_then_verify st found Hph E) as E2. cbv zeta in E2.
  rewrite Hfresh in E2.
  set (s := solution_of (fetch_block w (trace st)) found) in *.
  set (st2 := steps 2 st) in *.
  assert (Hph2 : ph st2 = Submitting s) by (rewrite E2; reflexivity).
  destruct (Hrej (List.length (submissions (trace st2))) s) as (why & Hsub & Hwhy).
  pose proof (step_submitting_rejected st2 s why Hph2 Hsub) as E3. cbv zeta in E3.
  assert (Ha : attempts_made st2 = attempts_made st) by (rewrite E2; reflexivity).
  rewrite Ha in E3.
  assert (Hwhy' : match why with
                  | Some HotKeyAlreadyRegistered => Success
                  | _ => if exhausted cfg (S (attempts_made st))
                         then Failure else RetrySolving
                  end
                  = if exhausted cfg (S (attempts_made st))
                    then Failure else RetrySolving).
  { destruct why as [[|m]|]; [congruence | reflexivity | reflexivity]. }
  rewrite Hwhy' in E3. clear Hwhy'.
  destruct (exhausted cfg (S (attempts_made st))) eqn:Hex.
  - exists (2 + 1). rewrite steps_add. fold st2. simpl. rewrite E3. split; reflexivity.
  - exists (2 + 2). rewrite steps_add. fold st2. simpl.
    rewrite (step_retry (step st2)); rewrite E3; split; reflexivity.
Qed.

(** One failing attempt: from [Solving] the machine comes back to
    [Solving] with one more attempt made, or fails when that was the last
    one.  Solutions that go stale on the way are discarded without an
    attempt being counted; there are finitely many of them. *)
Lemma failing_attempt (st : state) :
  every_attempt_fails cfg w ->
  ph st = Solving ->
  exists n,
    attempts_made (steps n st) = S (attempts_made st)
    /\ ph (steps n st) = if exhausted cfg (S (attempts_made st)) then Failure else Solving.
Proof.
  intros [Hnr Hcase] Hph.
  destruct Hcase as [Hnone|[[K HK] Hrej]].
  { apply timeout_attempt; [exact Hnr | exact Hph | apply Hnone]. }
  assert (Hgen : forall d st0,
             ph st0 = Solving ->
             K - List.length (height_queries (trace st0)) <= d ->
             exists n,
               attempts_made (steps n st0) = S (attempts_made st0)
               /\ ph (steps n st0)
                  = if exhausted cfg (S (attempts_made st0)) then Failure else Solving).
  { induction d as [|d IH]; intros st0 Hph0 Hd;
      (destruct (await_solution w (List.length (solve_results (trace st0)))
                                (fetch_block w (trace st0))) as [found|] eqn:E;
       [|apply timeout_attempt; assumption]);
      (destruct (is_stale cfg (solution_of (fetch_block w (trace st0)) found)
                          (get_current_block w
                             (S (List.length (height_queries (trace st0)))))) eqn:Hst;
       [|eapply rejected_attempt; eassumption]);
      pose proof Hst as Hlt; unfold is_stale in Hlt; apply Z.ltb_lt in Hlt;
      simpl in Hlt;
      (assert (Hi : List.length (height_queries (trace st0)) < K)
        by (destruct (Nat.le_gt_cases K (List.length (height_queries (trace st0))))
              as [Hle|Hgt]; [specialize (HK _ Hle); lia | exact Hgt])).
    - lia.
    - pose proof (solve_then_verify st0 found Hph0 E) as E2. cbv zeta in E2.
      rewrite Hst in E2.
      destruct (IH (steps 2 st0)) as (n & Hn & Hp).
      + rewrite E2. reflexivity.
      + rewrite E2. simpl. rewrite height_queries_app, length_app. simpl. lia.
      + exists (2 + n). rewrite steps_add.
        assert (Ha : attempts_made (steps 2 st0) = attempts_made st0)
          by (rewrite E2; reflexivity).
        rewrite Ha in Hn, Hp. split; assumption. }
  apply (Hgen _ st Hph (Nat.le_refl _)).
Qed.

Lemma all_attempts_fail (k : nat) :
  every_attempt_fails cfg w ->
  forall st,
    ph st = Solving ->
    attempts_made st + S k = max_attempts cfg ->
    exists n,
      ph (steps n st) = Failure /\ attempts_made (steps n st) = max_attempts cfg.
Proof.
  intros Hfail. induction k as [|k IH]; intros st Hph Ha.
  - destruct (failing_attempt st Hfail Hph) as (n & Hn & Hp).
    exists n. split; [|lia].
    rewrite Hp. replace (exhausted cfg (S (attempts_made st))) with true; [reflexivity|].
    symmetry. apply exhausted_true. lia.
  - destruct (failing_attempt st Hfail Hph) as (n & Hn & Hp).
    replace (exhausted cfg (S (attempts_made st))) with false in Hp
      by (symmetry; apply exhausted_false; lia).
    destruct (IH (steps n st) Hp) as (m & Hm); [lia|].
    exists (n + m). rewrite steps_add. exact Hm.
Qed.

(** From [Idle], an unregistered hotkey leads to [Solving] in two steps. *)
Lemma run_to_solving :
  is_hotkey_registered w 0 = false ->
  run 2 = {| ph := Solving; attempts_made := 0; trace := [EPoll false] |}.
Proof.
  intros H. unfold Registration.run. simpl. unfold Registration.step at 2. simpl.
  unfold Registration.step. simpl. rewrite H. reflexivity.
Qed.

(** *** Worlds in which the search always succeeds *)

(** A found solution that is still fresh reaches [Submitting]. *)
Lemma solve_and_verify (st : state) :
  always_solves w -> never_stale cfg w ->
  ph st = Solving ->
  exists s h blk,
    steps 2 st = {| ph := Submitting s; attempts_made := attempts_made st;
                    trace := trace st ++ [EFetch blk; ESolve (Some s); EVerify s h false] |}.
Proof.
  intros Hsol Hns Hph.
  destruct (await_solution w (List.length (solve_results (trace st)))
                           (fetch_block w (trace st))) as [found|] eqn:E;
    [|exfalso; exact (Hsol _ _ E)].
  pose proof (step_solving_found st found Hph E) as E1. cbv zeta in E1.
  set (s := solution_of (fetch_block w (trace st)) found) in *.
  exists s, (get_current_block w (S (List.length (height_queries (trace st))))),
    (fetch_block w (trace st)).
  simpl. set (st1 := step st) in *.
  assert (Hph1 : ph st1 = Verifying s) by (rewrite E1; reflexivity).
  rewrite (step_verifying st1 s Hph1). cbv zeta.
  assert (Hq : List.length (height_queries (trace st1))
               = S (List.length (height_queries (trace st)))).
  { rewrite E1. simpl. rewrite height_queries_app, length_app. simpl. lia. }
  rewrite Hq.
  assert (Hfresh : is_stale cfg s
                     (get_current_block w (S (List.length (height_queries (trace st)))))
                   = false) by (apply found_is_fresh; assumption).
  rewrite Hfresh. rewrite E1. simpl. rewrite <- app_assoc. reflexivity.
Qed.

(** A round that ends with a rejected submission, attempts being left. *)
Lemma rejected_round (st : state) (why : option reason) :
  always_solves w -> never_stale cfg w ->
  ph st = Solving ->
  (forall s, submit_pow_register w (List.length (submissions (trace st))) s = (false, why)) ->
  why <> Some HotKeyAlreadyRegistered ->
  S (attempts_made st) < max_attempts cfg ->
  exists n,
    ph (steps n st) = Solving
    /\ attempts_made (steps n st) = S (attempts_made st)
    /\ map snd (submissions (trace (steps n st)))
       = map snd (submissions (trace st)) ++ [(false, why)].
Proof.
  intros Hsol Hns Hph Hsub Hwhy Hleft.
  destruct (solve_and_verify st Hsol Hns Hph) as (s & h & blk & E2).
  exists (2 + 2). rewrite steps_add.
  remember (steps 2 st) as st2 eqn:Hst2.
  assert (Hph2 : ph st2 = Submitting s) by (rewrite E2; reflexivity).
  assert (Hn : List.length (submissions (trace st2)) = List.length (submissions (trace st))).
  { rewrite E2. simpl. rewrite submissions_app, length_app. simpl. lia. }
  pose proof (step_submitting_rejected st2 s why Hph2) as E3.
  rewrite Hn in E3. specialize (E3 (Hsub s)). cbv zeta in E3.
  replace (exhausted cfg (S (attempts_made st2))) with false in E3
    by (symmetry; apply exhausted_false; rewrite E2; exact Hleft).
  assert (Hph3 : ph (step st2) = RetrySolving).
  { rewrite E3. simpl. destruct why as [[|m]|]; [congruence | reflexivity | reflexivity]. }
  simpl. rewrite (step_retry _ Hph3). simpl. rewrite E3. simpl. rewrite E2. simpl.
  repeat split.
  rewrite !submissions_app, !map_app. simpl. rewrite app_nil_r. reflexivity.
Qed.

(** A round that ends with an accepted submission. *)
Lemma accepted_round (st : state) (why : option reason) :
  always_solves w -> never_stale cfg w ->
  ph st = Solving ->
  (forall s, submit_pow_register w (List.length (submissions (trace st))) s = (true, why)) ->
  exists n,
    ph (steps n st) = Success
    /\ attempts_made (steps n st) = attempts_made st
    /\ map snd (submissions (trace (steps n st)))
       = map snd (submissions (trace st)) ++ [(true, why)].
Proof.
  intros Hsol Hns Hph Hsub.
  destruct (solve_and_verify st Hsol Hns Hph) as (s & h & blk & E2).
  exists (2 + 1). rewrite steps_add.
  remember (steps 2 st) as st2 eqn:Hst2.
  assert (Hph2 : ph st2 = Submitting s) by (rewrite E2; reflexivity).
  assert (Hn : List.length (submissions (trace st2)) = List.length (submissions (trace st))).
  { rewrite E2. simpl. rewrite submissions_app, length_app. simpl. lia. }
  pose proof (step_submitting_accepted st2 s why Hph2) as E3.
  rewrite Hn in E3. specialize (E3 (Hsub s)).
  simpl. rewrite E3. simpl. rewrite E2. simpl.
  repeat split.
  rewrite !submissions_app, !map_app. simpl. rewrite app_nil_r. reflexivity.
Qed.

(** When every search finds a solution no search times out; when none
    does nothing is verified or submitted. *)
Lemma always_solves_no_timeout (n : nat) :
  always_solves w -> timeouts (trace (run n)) = [].
Proof.
  intros Hsol. apply (run_invariant (fun st => timeouts (trace st) = []));
    [reflexivity|].
  intros st H. step_cases st; trace_simpl; rewrite ?H; try reflexivity;
    exfalso; eapply Hsol; eassumption.
Qed.

Lemma never_solves_no_submission (n : nat) :
  never_solves w ->
  submissions (trace (run n)) = [] /\ verifications (trace (run n)) = []
  /\ match ph (run n) with
     | Verifying _ | Submitting _ | RetrySolving => False
     | _ => True
     end.
Proof.
  intros Hnone.
  apply (run_invariant
           (fun st => submissions (trace st) = [] /\ verifications (trace st) = []
                      /\ match ph st with
                         | Verifying _ | Submitting _ | RetrySolving => False
                         | _ => True
                         end)); [repeat split|].
  intros st (H1 & H2 & H3).
  step_cases st; rewrite ?Hph in *; trace_simpl; rewrite ?H1, ?H2;
    try contradiction; try (repeat split; assumption); try (repeat split; fail).
  rewrite Hnone in *. discriminate.
Qed.

(** *** The claims about the orchestrator *)






End Run.

Lemma le_1_3 : 1 <= 3.
Proof. repeat constructor. Defined.

Lemma le_3_3 : 3 <= 3.
Proof. constructor. Defined.

Lemma world_never_stale (w : World) :
  (forall k, get_current_block w k = Z.of_nat k) -> never_stale (cfg_of 3) w.
Proof.
  intros H k. rewrite !H. simpl staleness_threshold.
  rewrite Nat2Z.inj_succ. unfold Z.succ.
  replace (Z.of_nat k + 1 - Z.of_nat k)%Z with 1%Z.
  - discriminate.
  - rewrite Z.add_simpl_l. reflexivity.
Defined.



Lemma stale_then_failing_eventually_fresh :
  eventually_fresh (cfg_of 3) world_stale_then_failing.
Proof.
  exists 1. intros k Hk. destruct k as [|k]; [inversion Hk|]. simpl. discriminate.
Defined.


(** When every solution goes stale the run never ends: nothing is ever
    submitted and no attempt is ever counted. *)
Lemma always_stale_never_ends (fuel : nat) :
  is_terminal (ph (run (cfg_of 3) world_always_stale fuel)) = false
  /\ submissions (trace (run (cfg_of 3) world_always_stale fuel)) = []
  /\ attempts_made (run (cfg_of 3) world_always_stale fuel) = 0.
Proof.
  assert (H : attempts_made (run (cfg_of 3) world_always_stale fuel) = 0
              /\ submissions (trace (run (cfg_of 3) world_always_stale fuel)) = []
              /\ match ph (run (cfg_of 3) world_always_stale fuel) with
                 | Idle | CheckRegistered | Solving => True
                 | Verifying s =>
                     (block_number s + 10
                      = 10 * Z.of_nat (List.length
                                         (height_queries
                                            (trace (run (cfg_of 3) world_always_stale fuel)))))%Z
                 | _ => False
                 end).
  { apply (run_invariant (cfg_of 3) world_always_stale
             (fun st => attempts_made st = 0
                        /\ submissions (trace st) = []
                        /\ match ph st with
                           | Idle | CheckRegistered | Solving => True
                           | Verifying s =>
                               (block_number s + 10
                                = 10 * Z.of_nat (List.length (height_queries (trace st))))%Z
                           | _ => False
                           end)).
    - repeat split.
    - intros st (Ha & Hs & Hp). unfold Registration.step.
      destruct (ph st) eqn:Hph; try contradiction; simpl.
      + repeat split; assumption.
      + rewrite submissions_app, Hs. repeat split. exact Ha.
      + rewrite submissions_app, height_queries_app, length_app, Hs. simpl.
        split; [exact Ha|]. split; [reflexivity|]. lia.
      + assert (Hst : is_stale (cfg_of 3) s
                        (10 * Z.of_nat (List.length (height_queries (trace st)))) = true).
        { unfold is_stale. apply Z.ltb_lt. simpl. lia. }
        rewrite Hst. simpl. rewrite submissions_app, Hs. repeat split. exact Ha. }
  destruct H as (Ha & Hs & Hp).
  split; [|split; assumption].
  destruct (ph (run (cfg_of 3) world_always_stale fuel)); try contradiction; reflexivity.
Qed.




Lemma le_3_5 : 3 <= 5.
Proof. repeat constructor. Defined.



End RegistrationFacts.

(* ================================================================== *)
(** ** Further properties of [network.py] *)

Module NetworkCommandFacts.
Import Py Network NetworkCommands.
Local Open Scope list_scope.

(** *** [split] and [join] *)

Lemma split_comma_length (s : string) :
  List.length (split_comma s) = S (count_commas s).
Proof.
  induction s as [|c r IH]; [reflexivity|].
  simpl. destruct (Ascii.eqb c ",").
  - simpl. rewrite IH. reflexivity.
  - destruct (split_comma r) as [|h t]; [discriminate IH|]. simpl in *. exact IH.
Qed.

Lemma join_split_comma (s : string) : join_comma (split_comma s) = s.
Proof.
  induction s as [|c r IH]; [reflexivity|].
  simpl. destruct (Ascii.eqb c ",") eqn:E.
  - apply Ascii.eqb_eq in E. subst c.
    pose proof (split_comma_length r) as L.
    destruct (split_comma r) as [|h t]; [discriminate L|].
    change (join_comma (EmptyString :: h :: t))
      with (String "," (join_comma (h :: t))).
    rewrite IH. reflexivity.
  - destruct (split_comma r) as [|h t] eqn:Er.
    + pose proof (split_comma_length r) as L. rewrite Er in L. discriminate L.
    + destruct t as [|h' t'].
      * simpl in *. subst r. reflexivity.
      * change (join_comma (String c h :: h' :: t'))
          with (String c (h ++ comma ++ join_comma (h' :: t'))%string).
        change (join_comma (h :: h' :: t'))
          with (h ++ comma ++ join_comma (h' :: t'))%string in IH.
        rewrite IH. reflexivity.
Qed.

Lemma split_comma_parts (s : string) :
  Forall (fun p => count_commas p = 0) (split_comma s).
Proof.
  induction s as [|c r IH]; simpl.
  - constructor; [reflexivity | constructor].
  - destruct (Ascii.eqb c ",") eqn:E.
    + constructor; [reflexivity | exact IH].
    + destruct (split_comma r) as [|h t]; simpl.
      * constructor; [simpl; rewrite E; reflexivity | constructor].
      * inversion IH as [|x l Hh Ht]; subst.
        constructor; [simpl; rewrite E; exact Hh | exact Ht].
Qed.

(** Two parts: the text before the only comma and the text after it. *)
Lemma split_comma_two (s lo hi : string) :
  split_comma s = [lo; hi] ->
  s = (lo ++ comma ++ hi)%string /\ count_commas lo = 0 /\ count_commas hi = 0.
Proof.
  intros H. pose proof (join_split_comma s) as J.
  pose proof (split_comma_parts s) as P. rewrite H in J, P.
  apply Forall_cons_iff in P as [Hlo P]. apply Forall_cons_iff in P as [Hhi _].
  split; [symmetry; exact J | split; assumption].
Qed.

(** *** Comparisons of binary64 values, continued *)

Ltac cmp_cases :=
  repeat match goal with
         | |- context [Z.compare ?a ?b] => destruct (Z.compare_spec a b)
         | |- context [Pos.compare_cont Eq ?a ?b] =>
             rewrite (Pos.compare_cont_spec a b Eq); simpl Pos.switch_Eq;
             destruct (Pos.compare_spec a b)
         end.

Lemma SFle_lt_trans (x y z : float) :
  SFleb x y = true -> SFltb y z = true -> SFltb x z = true.
Proof.
  unfold SFleb, SFltb.
  destruct x as [sx|sx| |sx mx ex], y as [sy|sy| |sy my ey], z as [sz|sz| |sz mz ez];
    simpl; try discriminate; try reflexivity;
    try (destruct sx; simpl; try discriminate; try reflexivity);
    try (destruct sy; simpl; try discriminate; try reflexivity);
    try (destruct sz; simpl; try discriminate; try reflexivity);
    try (intros; assumption);
    cmp_cases; subst; simpl; try discriminate; try reflexivity; try lia;
    intros; try discriminate; try lia.
Qed.

(** *** [allowed_value] *)

(** What acceptance of a string for ["alpha_values"] rests on. *)
Lemma allowed_value_accepted
      (py_float : string -> option float) (s : string) (l : list float) :
  allowed_value py_float "alpha_values" (VStr s) = inr (true, PList l) ->
  exists lo hi alpha_low alpha_high,
    split_comma s = [lo; hi]
    /\ py_float lo = Some alpha_low /\ py_float hi = Some alpha_high
    /\ l = [alpha_low; alpha_high]
    /\ fle alpha_high c52428 = false /\ fge alpha_high c65535 = false
    /\ flt alpha_low c0 = false /\ fgt alpha_low c52428 = false.
Proof.
  unfold allowed_value, allowed_value_try. intros H.
  replace (String.eqb "alpha_values" "alpha_values") with true in H by reflexivity.
  destruct (split_comma s) as [|lo [|hi [|x t]]] eqn:Es; try discriminate H.
  destruct (py_float hi) as [alpha_high|] eqn:Eh; [|discriminate H].
  destruct (py_float lo) as [alpha_low|] eqn:El; [|discriminate H].
  fold c52428 c65535 c0 in H.
  destruct (fle alpha_high c52428 || fge alpha_high c65535) eqn:E1; [discriminate H|].
  destruct (flt alpha_low c0 || fgt alpha_low c52428) eqn:E2; [discriminate H|].
  apply orb_false_iff in E1, E2. destruct E1, E2.
  injection H as <-.
  exists lo, hi, alpha_low, alpha_high. repeat split; assumption.
Qed.

(** X1.  Whatever [float] does, a string given for ["alpha_values"] that
    does not hold exactly one comma is answered
    [(False, "a number or a boolean")]: the unpacking of [split(",")] into
    two names fails before anything is parsed. *)
Theorem allowed_value_needs_one_comma
        (py_float : string -> option float) (s : string) :
  count_commas s <> 1 ->
  allowed_value py_float "alpha_values" (VStr s)
  = inr (false, PMsg msg_number_or_boolean).
Proof.
  intros H. pose proof (split_comma_length s) as L.
  unfold allowed_value, allowed_value_try.
  replace (String.eqb "alpha_values" "alpha_values") with true by reflexivity.
  destruct (split_comma s) as [|lo [|hi [|x t]]]; simpl in L; try reflexivity.
  exfalso. apply H. congruence.
Qed.

Lemma allowed_value_needs_one_comma_witness :
  allowed_value float_of_string "alpha_values" (VStr "60000")
  = inr (false, PMsg msg_number_or_boolean)
  /\ allowed_value float_of_string "alpha_values" (VStr "100,60000,")
     = inr (false, PMsg msg_number_or_boolean).
Proof.
  split.
  - apply allowed_value_needs_one_comma. discriminate.
  - apply allowed_value_needs_one_comma. discriminate.
Defined.

(** X2.  A list is returned only for ["alpha_values"] and only for a string
    [lo,hi] with a single comma; the list is [float(lo)] followed by
    [float(hi)], in the order in which they were typed. *)
Theorem allowed_value_list_is_typed_pair
        (py_float : string -> option float) (param : string) (v : value)
        (ok : bool) (l : list float) :
  allowed_value py_float param v = inr (ok, PList l) ->
  ok = true /\ param = "alpha_values"
  /\ exists lo hi alpha_low alpha_high,
      v = VStr (lo ++ comma ++ hi)
      /\ count_commas lo = 0 /\ count_commas hi = 0
      /\ py_float lo = Some alpha_low /\ py_float hi = Some alpha_high
      /\ l = [alpha_low; alpha_high].
Proof.
  intros H.
  assert (Hp : param = "alpha_values" /\ ok = true /\ exists s, v = VStr s).
  { unfold allowed_value, allowed_value_try in H.
    destruct v as [b|s|f|]; try discriminate H;
      destruct (String.eqb param "alpha_values") eqn:Ep; try discriminate H.
    apply String.eqb_eq in Ep. split; [exact Ep|]. split; [|exists s; reflexivity].
    destruct (split_comma s) as [|lo [|hi [|x t]]]; try discriminate H.
    destruct (py_float hi); [|discriminate H].
    destruct (py_float lo); [|discriminate H].
    destruct (_ || _); [discriminate H|].
    destruct (_ || _); [discriminate H|].
    injection H as <- _. reflexivity. }
  destruct Hp as (-> & -> & s & ->).
  destruct (allowed_value_accepted py_float s l H)
    as (lo & hi & alpha_low & alpha_high & Es & El & Eh & Hl & _).
  destruct (split_comma_two s lo hi Es) as (Hs & Hlo & Hhi).
  split; [reflexivity|]. split; [reflexivity|].
  exists lo, hi, alpha_low, alpha_high. subst s. repeat split; assumption.
Qed.

Lemma allowed_value_list_is_typed_pair_witness :
  exists lo hi alpha_low alpha_high,
    VStr "100,60000" = VStr (lo ++ comma ++ hi)
    /\ float_of_string lo = Some alpha_low /\ float_of_string hi = Some alpha_high
    /\ [float_of_int 100; float_of_int 60000] = [alpha_low; alpha_high].
Proof.
  destruct (allowed_value_list_is_typed_pair
              float_of_string "alpha_values" (VStr "100,60000") true
              [float_of_int 100; float_of_int 60000] eq_refl)
    as (_ & _ & lo & hi & a & b & H1 & _ & _ & H2 & H3 & H4).
  exists lo, hi, a, b. repeat split; assumption.
Defined.

(** X3.  An accepted pair without NaN is in bounds and ordered:
    [0 <= alpha_low <= 52428 < alpha_high < 65535], so that
    [alpha_low < alpha_high]. *)
Theorem allowed_value_pair_is_ordered
        (py_float : string -> option float) (s : string)
        (alpha_low alpha_high : float) :
  allowed_value py_float "alpha_values" (VStr s)
  = inr (true, PList [alpha_low; alpha_high]) ->
  is_nan alpha_low = false -> is_nan alpha_high = false ->
  alpha_low_in_bounds alpha_low = true
  /\ alpha_high_in_bounds alpha_high = true
  /\ flt alpha_low alpha_high = true.
Proof.
  intros H Nlo Nhi.
  destruct (allowed_value_accepted py_float s _ H)
    as (lo & hi & l & h & _ & _ & _ & Hl & H1 & H2 & H3 & H4).
  injection Hl as <- <-.
  rewrite (NetworkFacts.fle_negb_fgt alpha_high c52428 Nhi eq_refl) in H1.
  rewrite (NetworkFacts.fge_negb_flt alpha_high c65535 Nhi eq_refl) in H2.
  apply negb_false_iff in H1, H2.
  assert (H5 : fle alpha_low c52428 = true).
  { rewrite (NetworkFacts.fle_negb_fgt alpha_low c52428 Nlo eq_refl), H4. reflexivity. }
  assert (H6 : fle c0 alpha_low = true).
  { change (fle c0 alpha_low) with (fge alpha_low c0).
    rewrite (NetworkFacts.fge_negb_flt alpha_low c0 Nlo eq_refl), H3. reflexivity. }
  unfold alpha_low_in_bounds, alpha_high_in_bounds.
  change (flt c52428 alpha_high) with (fgt alpha_high c52428).
  rewrite H1, H2, H5, H6. repeat split.
  exact (SFle_lt_trans alpha_low c52428 alpha_high H5 H1).
Qed.

Lemma allowed_value_pair_is_ordered_witness :
  flt (float_of_int 100) (float_of_int 60000) = true.
Proof.
  exact (proj2 (proj2 (allowed_value_pair_is_ordered
                         float_of_string "100,60000"
                         (float_of_int 100) (float_of_int 60000)
                         eq_refl eq_refl eq_refl))).
Defined.

(** X4.  What [allowed_value] can answer besides [(True, ...)].  For
    ["alpha_values"] it raises [AttributeError] exactly when the value is
    [None] or a float, neither of which has a [split], and it raises
    nothing else; for any other parameter it never raises, and answers
    [(True, None)] to [None].  It answers [False] only for a string given
    for ["alpha_values"], with one of three messages, and the message for
    [alpha_low] is given only when [alpha_high] has passed its test. *)
Theorem allowed_value_failures
        (py_float : string -> option float) (param : string) (v : value) :
  (forall e, allowed_value py_float param v = inl e <->
             e = AttributeError /\ param = "alpha_values"
             /\ (v = VNone \/ exists f, v = VFloat f))
  /\ (param <> "alpha_values" ->
      allowed_value py_float param VNone = inr (true, PValue VNone))
  /\ (forall pl, allowed_value py_float param v = inr (false, pl) ->
                 param = "alpha_values"
                 /\ exists s, v = VStr s
                 /\ (pl = PMsg msg_number_or_boolean
                     \/ (exists alpha_high,
                           pl = PMsg (msg_alpha_high alpha_high)
                           /\ (fle alpha_high c52428 || fge alpha_high c65535) = true)
                     \/ (exists alpha_low alpha_high lo hi,
                           pl = PMsg (msg_alpha_low alpha_low)
                           /\ split_comma s = [lo; hi]
                           /\ py_float hi = Some alpha_high
                           /\ (fle alpha_high c52428 || fge alpha_high c65535) = false
                           /\ (flt alpha_low c0 || fgt alpha_low c52428) = true))).
Proof.
  unfold allowed_value, allowed_value_try. fold c52428 c65535 c0.
  split; [|split].
  - intros e. split.
    + intros H.
      destruct v as [b|s|f|]; try discriminate H;
        destruct (String.eqb param "alpha_values") eqn:Ep; try discriminate H.
      * destruct (split_comma s) as [|lo [|hi [|x t]]]; try discriminate H.
        destruct (py_float hi); [|discriminate H].
        destruct (py_float lo); [|discriminate H].
        destruct (_ || _); [discriminate H|].
        destruct (_ || _); discriminate H.
      * apply String.eqb_eq in Ep. injection H as <-.
        split; [reflexivity|]. split; [exact Ep|]. right. exists f. reflexivity.
      * apply String.eqb_eq in Ep. injection H as <-.
        split; [reflexivity|]. split; [exact Ep|]. left. reflexivity.
    + intros (-> & -> & [->|[f ->]]); reflexivity.
  - intros Hp. apply String.eqb_neq in Hp. rewrite Hp. reflexivity.
  - intros pl H.
    destruct v as [b|s|f|]; try discriminate H;
      destruct (String.eqb param "alpha_values") eqn:Ep; try discriminate H.
    apply String.eqb_eq in Ep. split; [exact Ep|]. exists s. split; [reflexivity|].
    destruct (split_comma s) as [|lo [|hi [|x t]]];
      try (injection H as <-; left; reflexivity).
    destruct (py_float hi) as [alpha_high|] eqn:Eh;
      [|injection H as <-; left; reflexivity].
    destruct (py_float lo) as [alpha_low|] eqn:El;
      [|injection H as <-; left; reflexivity].
    destruct (fle alpha_high c52428 || fge alpha_high c65535) eqn:E1.
    + injection H as <-. right; left. exists alpha_high.
      split; [reflexivity | exact E1].
    + destruct (flt alpha_low c0 || fgt alpha_low c52428) eqn:E2; [|discriminate H].
      injection H as <-. right; right.
      exists alpha_low, alpha_high, lo, hi.
      split; [reflexivity|]. split; [reflexivity|]. split; [exact Eh|].
      split; [exact E1 | exact E2].
Qed.

Lemma allowed_value_failures_witness :
  allowed_value float_of_string "alpha_values" VNone = inl AttributeError
  /\ allowed_value float_of_string "rho" VNone = inr (true, PValue VNone)
  /\ "alpha_values" = "alpha_values".
Proof.
  pose proof (allowed_value_failures float_of_string "alpha_values" VNone) as (H1 & _).
  pose proof (allowed_value_failures float_of_string "rho" VNone) as (_ & H2 & _).
  pose proof (allowed_value_failures float_of_string "alpha_values" (VStr "1,2"))
    as (_ & _ & H3).
  split; [|split].
  - apply (proj2 (H1 AttributeError)).
    split; [reflexivity|]. split; [reflexivity|]. left. reflexivity.
  - apply H2. discriminate.
  - exact (proj1 (H3 _ eq_refl)).
Defined.

(** *** [SubnetSudoCommand._run] *)

Lemma boolean_param_not_alpha (p : string) :
  is_boolean_param p = true -> String.eqb p "alpha_values" = false.
Proof.
  intros H. apply NetworkFacts.is_boolean_param_In in H.
  repeat (destruct H as [<-|H]; [reflexivity|]). destruct H.
Qed.

(** With a parameter and a value, [_run] raises only for ["alpha_values"],
    and then [ValueError]. *)
Lemma SubnetSudoCommand_run_raises
      (py_float : string -> option float) (p v : string) (e : exn) :
  SubnetSudoCommand_run py_float p v = inl e ->
  e = ValueError /\ p = "alpha_values"
  /\ exists pl, allowed_value py_float "alpha_values" (VStr v) = inr (false, pl).
Proof.
  unfold SubnetSudoCommand_run, coerce_value. intros H.
  destruct (is_boolean_param p) eqn:Eb; [discriminate H|].
  destruct (allowed_value py_float p (VStr v)) as [e'|[[|] pl]] eqn:Ea;
    try discriminate H.
  - exfalso. unfold allowed_value, allowed_value_try in Ea.
    destruct (String.eqb p "alpha_values"); [|discriminate Ea].
    destruct (split_comma v) as [|lo [|hi [|x t]]]; try discriminate Ea.
    destruct (py_float hi); [|discriminate Ea].
    destruct (py_float lo); [|discriminate Ea].
    destruct (_ || _); [discriminate Ea|].
    destruct (_ || _); discriminate Ea.
  - injection H as <-.
    assert (Hp : p = "alpha_values").
    { unfold allowed_value, allowed_value_try in Ea.
      destruct (String.eqb p "alpha_values") eqn:Ep; [|discriminate Ea].
      apply String.eqb_eq. exact Ep. }
    subst p. split; [reflexivity|]. split; [reflexivity|]. exists pl. exact Ea.
Qed.

(** The exceptions that [_run] raises itself, after the prompts:
    [ValueError] only for ["alpha_values"], when [allowed_value] has
    answered [False] to the string; [AttributeError] only when the value is
    [None] and the parameter is one of the four boolean ones or
    ["alpha_values"]. *)
Lemma SubnetSudoCommand_run_config_raises
      (py_float : string -> option float) (ask_param ask_value : string)
      (c : SudoConfig) (e : exn) :
  SubnetSudoCommand_run_config py_float ask_param ask_value c = inl e ->
  (e = ValueError
   /\ prompted_param ask_param c = Some "alpha_values"
   /\ exists v pl,
       prompted_value ask_value c = Some v
       /\ allowed_value py_float "alpha_values" (VStr v) = inr (false, pl))
  \/ (e = AttributeError
      /\ prompted_value ask_value c = None
      /\ exists p, prompted_param ask_param c = Some p
                   /\ (In p boolean_params \/ p = "alpha_values")).
Proof.
  unfold SubnetSudoCommand_run_config. intros H.
  destruct (prompted_param ask_param c) as [p|] eqn:Ep,
           (prompted_value ask_value c) as [v|] eqn:Ev; try discriminate H.
  - destruct (SubnetSudoCommand_run py_float p v) as [e'|pl] eqn:Er; [|discriminate H].
    injection H as <-.
    destruct (SubnetSudoCommand_run_raises py_float p v e' Er) as (-> & -> & pl & Ha).
    left. split; [reflexivity|]. split; [reflexivity|]. exists v, pl. split; [reflexivity|exact Ha].
  - right. destruct (is_boolean_param p) eqn:Eb.
    + injection H as <-. split; [reflexivity|]. split; [reflexivity|].
      exists p. split; [reflexivity|]. left. apply NetworkFacts.is_boolean_param_In, Eb.
    + unfold allowed_value, allowed_value_try in H.
      destruct (String.eqb p "alpha_values") eqn:Ea; [|discriminate H].
      injection H as <-. split; [reflexivity|]. split; [reflexivity|].
      exists p. split; [reflexivity|]. right. apply String.eqb_eq, Ea.
Qed.



End NetworkCommandFacts.

(* ------------------------------------------------------------------ *)
(** ** The commands and their connection *)

Module CommandFacts.
Import Py Network NetworkCommands.
Local Open Scope list_scope.

Lemma unit_result (r : exc + unit) (u : unit) : r = inr u -> r = inr tt.
Proof. destruct u. exact (fun H => H). Qed.

Ltac world_cases :=
  repeat match goal with
         | r : (exc + _)%type |- _ => destruct r
         | u : unit |- _ => destruct u
         | b : bool |- _ => destruct b
         end.

Ltac in_cases H :=
  simpl in H;
  repeat match type of H with
         | _ \/ _ => destruct H as [H | H]
         end;
  try discriminate H; try contradiction H.

(** X7. [RegisterSubnetworkCommand.run] runs the identity command only
    when the registration answered true, prompting was allowed and the
    answer, in lower case, is "y"; the connection has then been closed
    before the identity command, and the [finally] block closes the same
    connection a second time after it. *)
Theorem register_identity_needs_consent (w : RegisterWorld) :
  In IdentityRun (fst (RegisterSubnetworkCommand_run w)) ->
  rw_register w = inr true /\ rw_no_prompt w = false /\
  (exists answer, rw_answer w = inr answer /\ lower answer = "y"%string) /\
  exists rest,
    fst (RegisterSubnetworkCommand_run w) =
    [ConfigCopy; SubtensorOpen; WalletOpen; RegisterSubnetwork true; AskSetIdentity;
     SubtensorClose; ConfigCopy; IdentityCheckConfig; IdentityRun; SubtensorClose]
      ++ rest.
Proof.
  destruct w as [np cp op wl rg an c1 cp2 ck idr c2].
  unfold RegisterSubnetworkCommand_run, RegisterSubnetworkCommand__run. simpl.
  intros H.
  destruct cp as [e|[]]; [in_cases H|].
  destruct op as [e|[]]; [in_cases H|].
  destruct wl as [e|[]]; [destruct c2 as [?|[]]; in_cases H|].
  destruct rg as [e|[|]]; [destruct c2 as [?|[]]; in_cases H| |destruct c2 as [?|[]]; in_cases H].
  destruct np; [destruct c2 as [?|[]]; in_cases H|].
  destruct an as [e|a]; [destruct c2 as [?|[]]; in_cases H|].
  simpl in H |- *.
  destruct (String.eqb_spec (lower a) "y") as [Ey|Ey];
    [|destruct c2 as [?|[]]; in_cases H].
  destruct c1 as [e|[]]; [destruct c2 as [?|[]]; in_cases H|].
  destruct cp2 as [e|[]]; [destruct c2 as [?|[]]; in_cases H|].
  destruct ck as [e|[]]; [destruct c2 as [?|[]]; in_cases H|].
  split; [reflexivity|]. split; [reflexivity|].
  split; [exists a; split; [reflexivity|exact Ey]|].
  destruct idr as [e|[]]; destruct c2 as [?|[]]; simpl; eexists; reflexivity.
Qed.

Lemma register_identity_needs_consent_witness :
  rw_register world_identity = inr true /\
  last (fst (RegisterSubnetworkCommand_run world_identity)) ConfigCopy
  = LogDebug "closing subtensor connection".
Proof.
  destruct (register_identity_needs_consent world_identity) as (R & _ & _ & rest & E).
  - vm_compute. tauto.
  - split; [exact R|]. vm_compute. reflexivity.
Defined.

(** X8. [RegisterSubnetworkCommand.run] closes the connection exactly
    when the configuration was copied and the connection opened, whatever
    is raised afterwards, and at most twice; when prompting is off it
    closes it at most once, asks nothing and never runs the identity
    command. *)
Theorem register_closes_iff_opened (w : RegisterWorld) :
  (In SubtensorClose (fst (RegisterSubnetworkCommand_run w)) <->
   (exists u v, rw_copy w = inr u /\ rw_open w = inr v)) /\
  (count_event is_close (fst (RegisterSubnetworkCommand_run w)) <= 2)%nat /\
  (rw_no_prompt w = true ->
   (count_event is_close (fst (RegisterSubnetworkCommand_run w)) <= 1)%nat /\
   ~ In AskSetIdentity (fst (RegisterSubnetworkCommand_run w)) /\
   ~ In IdentityRun (fst (RegisterSubnetworkCommand_run w))).
Proof.
  destruct w as [np cp op wl rg an c1 cp2 ck idr c2].
  unfold RegisterSubnetworkCommand_run, RegisterSubnetworkCommand__run, count_event.
  simpl.
  destruct cp as [e|[]].
  { simpl. split; [split; [intros H; in_cases H|intros (u & v & H & _); discriminate H]|].
    split; [lia|]. intros _. split; [lia|]. split; intros H; in_cases H. }
  destruct op as [e|[]].
  { simpl. split; [split; [intros H; in_cases H|intros (u & v & _ & H); discriminate H]|].
    split; [lia|]. intros _. split; [lia|]. split; intros H; in_cases H. }
  assert (Hopen : exists u v : unit, @inr exc unit tt = inr u /\ @inr exc unit tt = inr v)
    by (exists tt, tt; split; reflexivity).
  split.
  { split; [intros _; exact Hopen|intros _].
    destruct wl as [e|[]]; [destruct c2 as [?|[]]; simpl; tauto|].
    destruct rg as [e|b]; [destruct c2 as [?|[]]; simpl; tauto|].
    destruct (b && negb np); [|destruct c2 as [?|[]]; simpl; tauto].
    destruct an as [e|a]; [destruct c2 as [?|[]]; simpl; tauto|]. simpl.
    destruct (lower a =? "y")%string; [|destruct c2 as [?|[]]; simpl; tauto].
    destruct c1 as [?|[]]; [destruct c2 as [?|[]]; simpl; tauto|].
    destruct cp2 as [?|[]]; [destruct c2 as [?|[]]; simpl; tauto|].
    destruct ck as [?|[]]; [destruct c2 as [?|[]]; simpl; tauto|].
    destruct idr as [?|[]]; destruct c2 as [?|[]]; simpl; tauto. }
  split.
  { destruct wl as [e|[]]; [destruct c2 as [?|[]]; simpl; lia|].
    destruct rg as [e|b]; [destruct c2 as [?|[]]; simpl; lia|].
    destruct (b && negb np); [|destruct c2 as [?|[]]; simpl; lia].
    destruct an as [e|a]; [destruct c2 as [?|[]]; simpl; lia|]. simpl.
    destruct (lower a =? "y")%string; [|destruct c2 as [?|[]]; simpl; lia].
    destruct c1 as [?|[]]; [destruct c2 as [?|[]]; simpl; lia|].
    destruct cp2 as [?|[]]; [destruct c2 as [?|[]]; simpl; lia|].
    destruct ck as [?|[]]; [destruct c2 as [?|[]]; simpl; lia|].
    destruct idr as [?|[]]; destruct c2 as [?|[]]; simpl; lia. }
  intros ->.
  destruct wl as [e|[]];
    [destruct c2 as [?|[]]; simpl; (split; [lia|split; intros H; in_cases H])|].
  destruct rg as [e|b];
    [destruct c2 as [?|[]]; simpl; (split; [lia|split; intros H; in_cases H])|].
  rewrite Bool.andb_false_r.
  destruct c2 as [?|[]]; simpl; (split; [lia|split; intros H; in_cases H]).
Qed.

(** X9. [SubnetLockCostCommand.run] lets an exception out only if it comes
    from copying the configuration, from opening or closing the
    connection, or if the cost query raised something that does not derive
    from [Exception]; every other failure of the query is swallowed. *)
Theorem lock_cost_raises (w : LockCostWorld) (e : exc) :
  snd (SubnetLockCostCommand_run w) = inl e ->
  lw_copy w = inl e \/ lw_open w = inl e \/ lw_close w = inl e \/
  (lw_cost w = inl e /\ derives_Exception e = false).
Proof.
  destruct w as [cp op cost cl].
  unfold SubnetLockCostCommand_run, SubnetLockCostCommand__run. simpl.
  destruct cp as [e1|[]]; simpl; [intros [= <-]; left; reflexivity|].
  destruct op as [e1|[]]; simpl; [intros [= <-]; right; left; reflexivity|].
  destruct cost as [e1|c]; simpl.
  - destruct (derives_Exception e1) eqn:D; simpl.
    + destruct cl as [e2|[]]; simpl; intros [= <-]. right; right; left; reflexivity.
    + destruct cl as [e2|[]]; simpl; intros [= <-].
      * right; right; left; reflexivity.
      * right; right; right. split; [reflexivity|exact D].
  - destruct cl as [e2|[]]; simpl; intros [= <-]. right; right; left; reflexivity.
Qed.

Lemma lock_cost_raises_witness :
  lw_cost world_interrupted = inl KeyboardInterrupt /\
  derives_Exception KeyboardInterrupt = false.
Proof.
  destruct (lock_cost_raises world_interrupted KeyboardInterrupt) as [H|[H|[H|H]]].
  - reflexivity.
  - discriminate H.
  - discriminate H.
  - discriminate H.
  - exact H.
Defined.

(** X10. When the cost query of [SubnetLockCostCommand] raises an
    [Exception] after the connection was opened, [run] prints one line,
    the failure text immediately followed by "Error: " and the text of the
    exception, closes the connection, and returns what closing returns. *)
Theorem lock_cost_failure_is_printed (w : LockCostWorld) (e : exc) :
  (exists u v, lw_copy w = inr u /\ lw_open w = inr v) ->
  lw_cost w = inl e ->
  derives_Exception e = true ->
  snd (SubnetLockCostCommand_run w) = lw_close w /\
  exists rest,
    fst (SubnetLockCostCommand_run w) =
    [ConfigCopy; SubtensorOpen; GetSubnetBurnCost;
     ConsolePrint ("Subnet lock cost: [red]Failed to get subnet lock cost[/red]Error: "
                     ++ exc_text e)%string;
     SubtensorClose] ++ rest /\
    count_event is_print rest = 0%nat.
Proof.
  destruct w as [cp op cost cl]. simpl.
  intros (u & v & -> & ->) -> D.
  unfold SubnetLockCostCommand_run, SubnetLockCostCommand__run. simpl.
  rewrite D. simpl.
  destruct cl as [e2|[]]; simpl; (split; [reflexivity|]); eexists;
    (split; [reflexivity|reflexivity]).
Qed.

Lemma lock_cost_failure_is_printed_witness :
  snd (SubnetLockCostCommand_run world_unreachable) = inr tt.
Proof.
  destruct (lock_cost_failure_is_printed world_unreachable (ConnectionError "timed out"))
    as [H _].
  - exists tt, tt. split; reflexivity.
  - reflexivity.
  - reflexivity.
  - exact H.
Defined.

Lemma characters_spaces (n : nat) : characters (spaces n) = n.
Proof. induction n as [|n IH]; [reflexivity|]. cbn [spaces characters]. now rewrite IH. Qed.

Lemma characters_app (a b : string) :
  characters (a ++ b)%string = (characters a + characters b)%nat.
Proof.
  induction a as [|c a IH]; [reflexivity|].
  change (characters (String c (a ++ b)%string)
          = (characters (String c a) + characters b)%nat).
  cbn [characters]. rewrite IH. lia.
Qed.

Lemma characters_first (n : nat) (s : string) :
  characters (first_characters n s) = Nat.min n (characters s).
Proof.
  revert n. induction s as [|c s IH]; intros n; cbn [first_characters characters].
  - now rewrite Nat.min_0_r.
  - destruct (is_continuation c) eqn:E.
    + cbn [characters]. rewrite E, IH. reflexivity.
    + destruct n as [|n]; [reflexivity|].
      cbn [characters]. rewrite E, IH. reflexivity.
Qed.

Lemma first_characters_all (n : nat) (s : string) :
  (characters s <= n)%nat -> first_characters n s = s.
Proof.
  revert n. induction s as [|c s IH]; intros n H; [reflexivity|].
  cbn [first_characters characters] in *.
  destruct (is_continuation c).
  - rewrite IH by lia. reflexivity.
  - destruct n as [|n]; [lia|]. rewrite IH by lia. reflexivity.
Qed.

Lemma app_empty (s : string) : (s ++ "")%string = s.
Proof.
  induction s as [|c s IH]; [reflexivity|].
  change (String c (s ++ "")%string = String c s). now rewrite IH.
Qed.

(** The burn of one tao, as a balance prints it: the sign of the currency
    is one character of two bytes. *)
Lemma format_8_8_tao : format_8_8 "τ1.000000000" = "τ1.00000"%string.
Proof. vm_compute. reflexivity. Qed.

(** X11. The recycle cell of the subnet list, the burn formatted with
    [!s:8.8], always has exactly eight characters, counted as Python
    counts them (code points, not bytes): a longer text loses everything
    after its eighth character, a shorter one is filled with blanks on the
    right, and a text of eight characters is shown as it is. *)
Theorem format_8_8_width (s : string) :
  characters (format_8_8 s) = 8%nat /\
  ((8 <= characters s)%nat -> format_8_8 s = first_characters 8 s) /\
  ((characters s <= 8)%nat ->
   format_8_8 s = (s ++ spaces (8 - characters s))%string).
Proof.
  unfold format_8_8. split; [|split].
  - rewrite characters_app, characters_spaces, characters_first. lia.
  - intros H. rewrite characters_first.
    replace (8 - Nat.min 8 (characters s))%nat with 0%nat by lia.
    apply app_empty.
  - intros H. rewrite (first_characters_all 8 s H). reflexivity.
Qed.

Section SubnetListFacts.

Variable str_int : Z -> string.
Variable millify : Z -> string.
Variable emission_percent : Z -> string.
Variable str_balance : Z -> string.

#[local] Abbreviation row_cells' := (row_cells str_int millify emission_percent str_balance).
#[local] Abbreviation list_loop' := (list_loop str_int millify emission_percent str_balance).
#[local] Abbreviation table' :=
  (SubnetListCommand_table str_int millify emission_percent str_balance).
#[local] Abbreviation list_run' :=
  (SubnetListCommand_run str_int millify emission_percent str_balance).

Lemma owner_cell_some (d : string -> option string) (s : SubnetInfo) :
  owner_cell (Some d) s = inr (owner_name d s).
Proof. unfold owner_cell, owner_name. destruct (d (owner_ss58 s)); reflexivity. Qed.

Lemma list_loop_some (d : string -> option string) (subnets : list SubnetInfo)
      (acc : list (list string)) (total : Z) :
  list_loop' (Some d) subnets acc total =
  inr (acc ++ map (fun s => row_cells' s (owner_name d s)) subnets,
       (total + fold_right Z.add 0 (map max_n subnets))%Z).
Proof.
  revert acc total. induction subnets as [|s rest IH]; intros acc total.
  - simpl. rewrite app_nil_r, Z.add_0_r. reflexivity.
  - cbn [list_loop]. rewrite owner_cell_some, IH, <- app_assoc.
    cbn [map fold_right app]. rewrite Z.add_assoc. reflexivity.
Qed.

Lemma list_loop_none (subnets : list SubnetInfo) (acc : list (list string)) (total : Z) :
  subnets <> [] ->
  list_loop' None subnets acc total =
  inl (TypeError "argument of type 'NoneType' is not iterable").
Proof. destruct subnets as [|s rest]; [congruence|reflexivity]. Qed.

Lemma add_rows (rs : list (list string)) (t : Table) :
  fold_left (fun t row => add_row row t) rs t =
  {| title := title t; columns := columns t; rows := rows t ++ rs |}.
Proof.
  revert t. induction rs as [|r rs IH]; intros t; simpl.
  - rewrite app_nil_r. destruct t; reflexivity.
  - rewrite IH. simpl. rewrite <- app_assoc. reflexivity.
Qed.

(** X12. With a dictionary of delegates, [SubnetListCommand] builds a
    table with one row of eight cells per subnet, in the order of the
    subnets, under eight columns; the owner cell is the delegate's name
    when the owner is a known delegate and the address otherwise.  The
    footer of the first column is the number of subnets; the footer of the
    column N is the sum of the capacities [max_n] of the subnets, not of
    their numbers of neurons [subnetwork_n]; the other footers are
    empty. *)
Theorem subnet_list_table (network : string) (subnets : list SubnetInfo)
        (d : string -> option string) :
  exists t,
    table' network subnets (Some d) = inr t /\
    title t = ("[white]Subnets - " ++ network)%string /\
    rows t = map (fun s => row_cells' s (owner_name d s)) subnets /\
    map footer (columns t) =
      [str_int (Z.of_nat (List.length subnets));
       str_int (fold_right Z.add 0%Z (map max_n subnets));
       ""; ""; ""; ""; ""; ""]%string /\
    map header (columns t) =
      ["[overline white]NETUID"; "[overline white]N"; "[overline white]MAX_N";
       "[overline white]EMISSION"; "[overline white]TEMPO"; "[overline white]RECYCLE";
       "[overline white]POW"; "[overline white]SUDO"]%string /\
    Forall (fun r => List.length r = List.length (columns t)) (rows t).
Proof.
  unfold SubnetListCommand_table. rewrite list_loop_some. simpl.
  rewrite add_rows. simpl. eexists. split; [reflexivity|]. simpl.
  repeat (split; [reflexivity|]).
  apply Forall_forall. intros r Hr. apply in_map_iff in Hr as (s & <- & _).
  reflexivity.
Qed.

(** X13. When the delegates could not be fetched ([None]) and there is at
    least one subnet, [SubnetListCommand.run] raises [TypeError] from the
    first row: no table is printed, and the connection is still closed. *)
Theorem subnet_list_without_delegates (network : string) (subnets : list SubnetInfo)
        (close : exc + unit) :
  subnets <> [] ->
  table' network subnets None =
    inl (TypeError "argument of type 'NoneType' is not iterable") /\
  (forall t, ~ In (PrintTable t)
               (fst (list_run' network (inr tt) (inr subnets) (inr None) close))) /\
  In SubtensorClose (fst (list_run' network (inr tt) (inr subnets) (inr None) close)) /\
  (close = inr tt ->
   snd (list_run' network (inr tt) (inr subnets) (inr None) close) =
   inl (TypeError "argument of type 'NoneType' is not iterable")).
Proof.
  intros Hne.
  assert (T : table' network subnets None =
              inl (TypeError "argument of type 'NoneType' is not iterable")).
  { unfold SubnetListCommand_table. rewrite (list_loop_none subnets [] 0 Hne).
    reflexivity. }
  split; [exact T|].
  unfold SubnetListCommand_run, SubnetListCommand__run. simpl. rewrite T.
  destruct close as [e|[]]; simpl.
  - split; [intros t H; in_cases H|]. split; [tauto|]. intros H; discriminate H.
  - split; [intros t H; in_cases H|]. split; [tauto|]. intros _; reflexivity.
Qed.

End SubnetListFacts.

Lemma subnet_list_without_delegates_witness :
  SubnetListCommand_table (fun _ => "") (fun _ => "") (fun _ => "") (fun _ => "")
                          "finney" [subnet_one] None =
  inl (TypeError "argument of type 'NoneType' is not iterable").
Proof.
  refine (proj1 (subnet_list_without_delegates _ _ _ _ "finney" [subnet_one] (inr tt) _)).
  intros H; discriminate H.
Defined.

Section SudoCommandFacts.

Variable py_float : string -> option float.
Variable ask_param : string.
Variable ask_value : string.
Variable str_int : Z -> string.
Variable text_of : exn -> string.

#[local] Abbreviation sudo_run :=
  (SubnetSudoCommand_run_cli py_float ask_param ask_value str_int text_of).
#[local] Abbreviation sudo_config :=
  (SubnetSudoCommand_run_config py_float ask_param ask_value).

(** X5. An exception leaves [SubnetSudoCommand._run] in three ways only
    (the prompts and the prints taken not to raise).  It was raised by a
    collaborator: the wallet, the opening, the query or the closing of the
    hyperparameter display, or [set_hyperparameter].  Or it is the
    [ValueError] that [_run] raises itself, only for ["alpha_values"] when
    [allowed_value] has answered [False] to the string: for every other
    parameter no value is ever refused.  Or it is the [AttributeError] of
    a value that is still [None] after the prompts, when the parameter is
    one of the four boolean ones or ["alpha_values"]. *)
Theorem sudo_run_raises (w : SudoWorld) (c : SudoConfig) (e : exc) :
  snd (SubnetSudoCommand__run py_float ask_param ask_value str_int text_of w c) = inl e ->
  (sw_wallet w = inl e \/ sw_display_open w = inl e \/ sw_hyperparameters w = inl e
   \/ sw_display_close w = inl e \/ sw_set w = inl e)
  \/ (e = exc_of_exn text_of ValueError
      /\ prompted_param ask_param c = Some "alpha_values"%string
      /\ exists v pl,
          prompted_value ask_value c = Some v
          /\ allowed_value py_float "alpha_values" (VStr v) = inr (false, pl))
  \/ (e = exc_of_exn text_of AttributeError
      /\ prompted_value ask_value c = None
      /\ exists p, prompted_param ask_param c = Some p
                   /\ (In p boolean_params \/ p = "alpha_values"%string)).
Proof.
  destruct w as [net op wl dop hp dcl st cl].
  unfold SubnetSudoCommand__run, SubnetHyperparamsCommand_run,
    SubnetHyperparamsCommand__run, ask_when.
  cbn [sw_network sw_open sw_wallet sw_display_open sw_hyperparameters
       sw_display_close sw_set sw_close].
  destruct (sudo_config c) as [e'|set'] eqn:R.
  - pose proof (NetworkCommandFacts.SubnetSudoCommand_run_config_raises
                  py_float ask_param ask_value c e' R) as Hown.
    destruct (negb (param_is_set c) && negb (no_prompt c));
      destruct (negb (value_is_set c) && negb (no_prompt c));
      destruct wl as [?|[]]; destruct dop as [?|[]];
      destruct hp as [?|l]; destruct dcl as [?|[]];
      simpl; intros [= <-]; try (left; auto 8; fail);
      right; (destruct Hown as [(-> & Hown)|(-> & Hown)];
              [left|right]; (split; [reflexivity|exact Hown])).
  - destruct (negb (param_is_set c) && negb (no_prompt c));
      destruct (negb (value_is_set c) && negb (no_prompt c));
      destruct wl as [?|[]]; destruct dop as [?|[]];
      destruct hp as [?|l]; destruct dcl as [?|[]]; destruct st as [?|[]];
      simpl; intros [= <-]; left; auto 8.
Qed.

(** X18. [SubnetSudoCommand.run] calls [set_hyperparameter] only with the
    call that the coercion and [allowed_value] produce, and only after the
    hyperparameters have been fetched and shown on a connection of their
    own, opened after the command's connection and closed before any
    prompt; the prompts shown are those for what the configuration lacks,
    and the command's connection is closed after the call. *)
Theorem sudo_sets_only_after_display (w : SudoWorld) (c : SudoConfig)
        (set : SetHyperparameter) :
  In (SetHyperparameterCall set) (fst (sudo_run w c)) ->
  SubnetSudoCommand_run_config py_float ask_param ask_value c = inr set /\
  exists normalized_values rest,
    sw_hyperparameters w = inr normalized_values /\
    fst (sudo_run w c) =
    [SubtensorOpen; WalletOpen; StdoutPrint newline;
     SubtensorOpen; GetSubnetHyperparameters;
     PrintTable (hyperparams_table (str_int (config_netuid c)) (sw_network w)
                                   normalized_values);
     SubtensorClose; LogDebug "closing subtensor connection"]
      ++ (if negb (param_is_set c) && negb (no_prompt c) then [AskParam] else [])
      ++ (if negb (value_is_set c) && negb (no_prompt c) then [AskValue] else [])
      ++ [SetHyperparameterCall set; SubtensorClose] ++ rest.
Proof.
  destruct w as [net op wl dop hp dcl st cl].
  unfold SubnetSudoCommand_run_cli, SubnetSudoCommand__run,
    SubnetHyperparamsCommand_run, SubnetHyperparamsCommand__run, ask_when.
  cbn [sw_network sw_open sw_wallet sw_display_open sw_hyperparameters
       sw_display_close sw_set sw_close].
  destruct (sudo_config c) as [e|set'] eqn:R;
    destruct (negb (param_is_set c) && negb (no_prompt c));
    destruct (negb (value_is_set c) && negb (no_prompt c));
    destruct op as [?|[]]; destruct wl as [?|[]]; destruct dop as [?|[]];
    destruct hp as [?|l]; destruct dcl as [?|[]]; destruct st as [?|[]];
    destruct cl as [?|[]]; simpl; intros H; in_cases H;
    injection H as <-; (split; [reflexivity|]); exists l; eexists;
    (split; [reflexivity|reflexivity]).
Qed.

(** X19. When the value is refused, or missing where one is needed,
    [SubnetSudoCommand.run] never calls [set_hyperparameter], whatever the
    collaborators answer; when they all answer, the exception of [_run]
    comes out of [run] after both connections have been closed. *)
Theorem sudo_refusal_sets_nothing (w : SudoWorld) (c : SudoConfig) (e : exn) :
  SubnetSudoCommand_run_config py_float ask_param ask_value c = inl e ->
  count_event is_set_call (fst (sudo_run w c)) = 0%nat /\
  (sw_open w = inr tt -> sw_wallet w = inr tt -> sw_display_open w = inr tt ->
   (exists l, sw_hyperparameters w = inr l) -> sw_display_close w = inr tt ->
   sw_close w = inr tt ->
   count_event is_close (fst (sudo_run w c)) = 2%nat /\
   snd (sudo_run w c) = inl (exc_of_exn text_of e)).
Proof.
  intros R. destruct w as [net op wl dop hp dcl st cl].
  unfold SubnetSudoCommand_run_cli, SubnetSudoCommand__run,
    SubnetHyperparamsCommand_run, SubnetHyperparamsCommand__run, ask_when, count_event.
  cbn [sw_network sw_open sw_wallet sw_display_open sw_hyperparameters
       sw_display_close sw_set sw_close].
  rewrite R. split.
  - destruct (negb (param_is_set c) && negb (no_prompt c));
      destruct (negb (value_is_set c) && negb (no_prompt c));
      destruct op as [?|[]]; destruct wl as [?|[]]; destruct dop as [?|[]];
      destruct hp as [?|l]; destruct dcl as [?|[]];
      destruct cl as [?|[]]; reflexivity.
  - intros -> -> -> [l ->] -> ->.
    destruct (negb (param_is_set c) && negb (no_prompt c));
      destruct (negb (value_is_set c) && negb (no_prompt c)); simpl;
      (split; reflexivity).
Qed.

End SudoCommandFacts.

Lemma sudo_run_raises_witness :
  (sw_wallet world_no_keyfile = inl KeyFileError
   \/ sw_display_open world_no_keyfile = inl KeyFileError
   \/ sw_hyperparameters world_no_keyfile = inl KeyFileError
   \/ sw_display_close world_no_keyfile = inl KeyFileError
   \/ sw_set world_no_keyfile = inl KeyFileError)
  \/ (KeyFileError = exc_of_exn (fun _ => ""%string) ValueError
      /\ prompted_param "rho" config_rho = Some "alpha_values"%string
      /\ exists v pl,
          prompted_value "12" config_rho = Some v
          /\ allowed_value float_of_string "alpha_values" (VStr v) = inr (false, pl))
  \/ (KeyFileError = exc_of_exn (fun _ => ""%string) AttributeError
      /\ prompted_value "12" config_rho = None
      /\ exists p, prompted_param "rho" config_rho = Some p
                   /\ (In p boolean_params \/ p = "alpha_values"%string)).
Proof.
  apply (sudo_run_raises float_of_string "rho" "12" (fun _ => ""%string)
                         (fun _ => ""%string) world_no_keyfile config_rho KeyFileError).
  reflexivity.
Defined.

Lemma sudo_sets_only_after_display_witness :
  SubnetSudoCommand_run_config float_of_string "rho" "12" config_rho
  = inr {| call_netuid := 1; call_parameter := Some "rho"%string;
           call_value := Some (PValue (VStr "12")); call_prompt := true |}.
Proof.
  refine (proj1 (sudo_sets_only_after_display float_of_string "rho" "12"
                   (fun _ => ""%string) (fun _ => ""%string)
                   world_answering config_rho _ _)).
  vm_compute. tauto.
Defined.

Lemma sudo_refusal_sets_nothing_witness :
  count_event is_set_call
    (fst (SubnetSudoCommand_run_cli float_of_string "rho" "12"
            (fun _ => ""%string) (fun _ => ""%string)
            world_answering config_bad_alpha)) = 0%nat.
Proof.
  refine (proj1 (sudo_refusal_sets_nothing float_of_string "rho" "12"
                   (fun _ => ""%string) (fun _ => ""%string)
                   world_answering config_bad_alpha ValueError _)).
  vm_compute. reflexivity.
Defined.

End CommandFacts.

(* ------------------------------------------------------------------ *)
(** ** Wrapping the methods of a class *)

Module TracingFacts.
Import stdpp.base stdpp.list stdpp.gmap stdpp.strings.
Import Tracing.

Section DecorateFacts.

Context {attr : Type}.
Variable is_function : attr -> bool.
Variable NeuroTrace : attr -> attr.

#[local] Abbreviation decorate := (decorate_class_methods is_function NeuroTrace).
#[local] Abbreviation decorate1 := (decorate_method is_function NeuroTrace).
#[local] Abbreviation traced :=
  (fun a : attr => if is_function a then NeuroTrace a else a).

Lemma decorate_method_lookup (cls : gmap string attr) (n name : string) :
  decorate1 cls n !! name =
  if decide (name = n) then traced <$> cls !! n else cls !! name.
Proof.
  unfold decorate_method. destruct (decide (name = n)) as [->|Hne].
  - destruct (cls !! n) as [a|] eqn:E; simpl.
    + destruct (is_function a).
      * apply lookup_insert_eq.
      * exact E.
    + exact E.
  - destruct (cls !! n) as [a|] eqn:E; [|reflexivity].
    destruct (is_function a); [|reflexivity].
    apply lookup_insert_ne. congruence.
Qed.

Lemma decorate_cons (cls : gmap string attr) (n : string) (ns : list string) :
  decorate cls (n :: ns) = decorate (decorate1 cls n) ns.
Proof. reflexivity. Qed.

(** X14. [decorate_class_methods] leaves every attribute whose name is not
    in the list as it was. *)
Theorem decorate_leaves_others (cls : gmap string attr) (method_names : list string)
        (name : string) :
  name ∉ method_names ->
  decorate_class_methods is_function NeuroTrace cls method_names !! name = cls !! name.
Proof.
  revert cls. induction method_names as [|n ns IH]; intros cls Hnot; [reflexivity|].
  apply not_elem_of_cons in Hnot as [Hne Hnot].
  rewrite decorate_cons, IH by exact Hnot.
  rewrite decorate_method_lookup. destruct (decide (name = n)); [contradiction|reflexivity].
Qed.

(** X15. [decorate_class_methods] neither adds nor removes an attribute:
    a name of the list that the class lacks is skipped, and the class has
    the same names afterwards. *)
Theorem decorate_keeps_names (cls : gmap string attr) (method_names : list string) :
  dom (decorate_class_methods is_function NeuroTrace cls method_names) = dom cls.
Proof.
  revert cls. induction method_names as [|n ns IH]; intros cls; [reflexivity|].
  rewrite decorate_cons, IH.
  apply set_eq. intros name. rewrite !elem_of_dom, decorate_method_lookup.
  destruct (decide (name = n)) as [->|]; [|reflexivity].
  unfold is_Some. destruct (cls !! n); simpl; split; intros [x H]; eauto; discriminate.
Qed.

(** X16. When no name is listed twice, every listed attribute that is a
    function is replaced by [NeuroTrace] of the original, wrapped once,
    and every listed attribute that is not a function is left as it
    was. *)
Theorem decorate_wraps_once (cls : gmap string attr) (method_names : list string)
        (name : string) (a : attr) :
  NoDup method_names ->
  name ∈ method_names ->
  cls !! name = Some a ->
  decorate_class_methods is_function NeuroTrace cls method_names !! name
  = Some (if is_function a then NeuroTrace a else a).
Proof.
  revert cls. induction method_names as [|n ns IH]; intros cls Hnd Hin Ha.
  - apply elem_of_nil in Hin. contradiction.
  - apply NoDup_cons in Hnd as [Hn Hnd]. rewrite decorate_cons.
    destruct (decide (name = n)) as [->|Hne].
    + rewrite decorate_leaves_others by exact Hn.
      rewrite decorate_method_lookup, decide_True by reflexivity.
      rewrite Ha. reflexivity.
    + apply elem_of_cons in Hin as [Heq|Hin]; [contradiction|].
      apply IH; [exact Hnd|exact Hin|].
      rewrite decorate_method_lookup, decide_False by exact Hne. exact Ha.
Qed.

Hypothesis traced_is_no_function : forall a, is_function (NeuroTrace a) = false.

Lemma traced_traced (a : attr) : traced (traced a) = traced a.
Proof.
  simpl. destruct (is_function a) eqn:E.
  - now rewrite traced_is_no_function.
  - now rewrite E.
Qed.

Lemma decorate_lookup (cls : gmap string attr) (method_names : list string)
      (name : string) :
  decorate cls method_names !! name =
  if decide (name ∈ method_names) then traced <$> cls !! name else cls !! name.
Proof.
  revert cls. induction method_names as [|n ns IH]; intros cls.
  - rewrite decide_False by apply not_elem_of_nil. reflexivity.
  - rewrite decorate_cons, IH, decorate_method_lookup.
    destruct (decide (name = n)) as [->|Hne].
    + rewrite (decide_True (P := n ∈ n :: ns)) by (apply elem_of_cons; left; reflexivity).
      destruct (decide (n ∈ ns)); [|reflexivity].
      destruct (cls !! n) as [a|]; [|reflexivity].
      simpl. f_equal. apply traced_traced.
    + destruct (decide (name ∈ ns)) as [Hin|Hnin].
      * rewrite decide_True by (apply elem_of_cons; right; exact Hin). reflexivity.
      * rewrite decide_False; [reflexivity|].
        intros H. apply elem_of_cons in H as [H|H]; contradiction.
Qed.

(** X17. When what [NeuroTrace] returns is not itself a function,
    decorating is idempotent and insensitive to repetitions: an attribute
    is wrapped at most once however often its name is listed, and
    decorating again with names already listed changes nothing. *)
Theorem decorate_idempotent (cls : gmap string attr)
        (method_names again : list string) :
  again ⊆ method_names ->
  decorate_class_methods is_function NeuroTrace
    (decorate_class_methods is_function NeuroTrace cls method_names) again
  = decorate_class_methods is_function NeuroTrace cls method_names.
Proof.
  intros Hsub. apply map_eq. intros name.
  rewrite (decorate_lookup _ again).
  destruct (decide (name ∈ again)) as [Hin|]; [|reflexivity].
  rewrite decorate_lookup, decide_True by (apply Hsub; exact Hin).
  destruct (cls !! name) as [a|]; [|reflexivity].
  simpl. f_equal. apply traced_traced.
Qed.

End DecorateFacts.

Lemma decorate_leaves_others_witness :
  decorate_class_methods attribute_is_function Traced some_class methods_to_decorate
    !! "network"%string
  = Some (Other "network").
Proof.
  etransitivity.
  - apply (decorate_leaves_others attribute_is_function Traced some_class
                                  methods_to_decorate "network"%string).
    apply (bool_decide_unpack _). vm_compute. exact I.
  - vm_compute. reflexivity.
Defined.

Lemma decorate_wraps_once_witness :
  decorate_class_methods attribute_is_function Traced some_class methods_to_decorate
    !! "get_balance"%string
  = Some (Traced (Function "get_balance")).
Proof.
  apply (decorate_wraps_once attribute_is_function Traced some_class
                             methods_to_decorate "get_balance"%string
                             (Function "get_balance")).
  - apply (bool_decide_unpack _). vm_compute. exact I.
  - apply (bool_decide_unpack _). vm_compute. exact I.
  - vm_compute. reflexivity.
Defined.

Lemma decorate_idempotent_witness :
  decorate_class_methods attribute_is_function Traced
    (decorate_class_methods attribute_is_function Traced some_class methods_to_decorate)
    methods_to_decorate
  = decorate_class_methods attribute_is_function Traced some_class methods_to_decorate.
Proof.
  apply (decorate_idempotent attribute_is_function Traced).
  - intros a. reflexivity.
  - intros x Hx. exact Hx.
Defined.

End TracingFacts.
